(** * Autonomous Email Engine: a shallow embedding and its properties

    Source: [backend/services/autonomous-email-engine.js].  The functions
    embedded are those the properties below are about: the delivery path
    ([sendEmail], [addTracking]), the follow-up sequencer
    ([processFollowUpQueue], [shouldSendFollowUp], [sendNextFollowUp]), the
    reply dispatch ([handleClassifiedReply]), open and click recording
    ([trackOpen], [trackClick], [handleEmailOpened], [handleEmailClicked]),
    reply cleaning ([cleanReplyText]) and the analytics ([getAnalytics]).
    Each keeps the name it has in the source.

    Modelling conventions.
    - A JavaScript string is a Rocq [string], read as its sequence of
      UTF-8 bytes; the case mapping, the white space classes and the regular
      expression classes are the ASCII ones.
    - A timestamp column is the number of milliseconds since the epoch
      ([Z]); a nullable column is an [option].
    - The Supabase tables are finite maps and append-only lists held in a
      [World]; the storage calls are reliable (they return no error).
    - [new Date()] reads the world's clock; only [delay] advances it.
    - The e-mail provider is an oracle of the engine: it answers a request
      from the request and the calls made so far.
    - The elapsed hours of the due-check are exact rationals (a double
      quotient of two integers compares to an integer delay as the exact
      quotient does); the rates of the analytics are binary64 numbers.
    - [console.log] is not modelled. *)

From Stdlib Require Import ZArith QArith Ascii String PrimFloat FloatOps SpecFloat Uint63.
From stdpp Require Import gmap strings list fin_maps.

Local Open Scope Z_scope.

(** ** JavaScript strings *)

Module Js.

Fixpoint concat (l : list string) : string :=
  match l with
  | [] => ""
  | x :: l' => x +:+ concat l'
  end.

(** [s.substring(0, n)] for [0 <= n]. *)
Fixpoint take (n : nat) (s : string) : string :=
  match n, s with
  | S n', String c s' => String c (take n' s')
  | _, _ => ""
  end.

(** [s.substring(n)] *)
Fixpoint drop (n : nat) (s : string) : string :=
  match n, s with
  | S n', String _ s' => drop n' s'
  | _, _ => s
  end.

Definition lower (c : ascii) : ascii :=
  let n := nat_of_ascii c in
  if ((65 <=? n) && (n <=? 90))%nat then ascii_of_nat (n + 32) else c.

Fixpoint toLowerCase (s : string) : string :=
  match s with
  | "" => ""
  | String c s' => String (lower c) (toLowerCase s')
  end.

Fixpoint startsWith (p s : string) : bool :=
  match p, s with
  | "", _ => true
  | String a p', String b s' => if ascii_dec a b then startsWith p' s' else false
  | String _ _, "" => false
  end.

(** [s.includes(p)] *)
Fixpoint includes (p s : string) : bool :=
  startsWith p s ||
  match s with
  | "" => false
  | String _ s' => includes p s'
  end.

Fixpoint trimStart (s : string) : string :=
  match s with
  | String c s' => if Ascii.is_space c then trimStart s' else s
  | "" => ""
  end.

Fixpoint trimEnd (s : string) : string :=
  match s with
  | "" => ""
  | String c s' =>
      match trimEnd s' with
      | "" => if Ascii.is_space c then "" else String c ""
      | t => String c t
      end
  end.

(** [s.trim()] *)
Definition trim (s : string) : string := trimEnd (trimStart s).

(** [s.split(' ')[0]] *)
Fixpoint firstWord (s : string) : string :=
  match s with
  | "" => ""
  | String c s' => if ascii_dec c " " then "" else String c (firstWord s')
  end.

(** [s.replace(p, r)] with a string pattern: the first occurrence only. *)
Fixpoint replaceFirst (p r s : string) : string :=
  if startsWith p s then r +:+ drop (String.length p) s
  else match s with
       | "" => ""
       | String c s' => String c (replaceFirst p r s')
       end.

(** A JavaScript value used as a condition: the empty string and [null] are
    falsy. *)
Definition truthy (o : option string) : bool :=
  match o with
  | Some (String _ _) => true
  | _ => false
  end.

(** [a || b] on strings. *)
Definition orElse (a : option string) (b : string) : string :=
  match a with
  | Some (String c s) => String c s
  | _ => b
  end.

Definition hexDigit (n : nat) : ascii :=
  ascii_of_nat (if (n <? 10)%nat then 48 + n else 55 + n).

Definition unreserved (c : ascii) : bool :=
  let n := nat_of_ascii c in
  ((48 <=? n) && (n <=? 57) || (65 <=? n) && (n <=? 90) || (97 <=? n) && (n <=? 122))%nat
  || bool_decide (c ∈ ["-"; "_"; "."; "!"; "~"; "*"; "'"; "("; ")"]%char).

Fixpoint encodeURIComponent (s : string) : string :=
  match s with
  | "" => ""
  | String c s' =>
      if unreserved c then String c (encodeURIComponent s')
      else String "%" (String (hexDigit (nat_of_ascii c / 16))
             (String (hexDigit (nat_of_ascii c mod 16)) (encodeURIComponent s')))
  end.



End Js.

(** ** Regular expressions

    A backtracking matcher in the order of the ECMAScript semantics:
    [run r s] lists, most preferred first, what is left of [s] after each
    way [r] can match at its start. *)

Module Regex.

Inductive regex :=
| Chr (p : ascii → bool)
| Eps
| Seq (r1 r2 : regex)
| Alt (r1 r2 : regex)
| Star (r : regex)
| Eos.

Fixpoint star_loop (step : string → list string) (fuel : nat) (s : string) : list string :=
  match fuel with
  | O => [s]
  | S fuel' =>
      flat_map (λ s', if (String.length s' <? String.length s)%nat
                      then star_loop step fuel' s' else []) (step s) ++ [s]
  end.

Fixpoint run (r : regex) (s : string) : list string :=
  match r with
  | Chr p => match s with
             | String c s' => if p c then [s'] else []
             | "" => []
             end
  | Eps => [s]
  | Seq r1 r2 => flat_map (run r2) (run r1 s)
  | Alt r1 r2 => run r1 s ++ run r2 s
  | Star r1 => star_loop (run r1) (S (String.length s)) s
  | Eos => match s with "" => [""] | _ => [] end
  end.

Definition test_at (r : regex) (s : string) : bool :=
  match run r s with [] => false | _ => true end.

(** [s.search(r)], counted from [i]. *)
Fixpoint search_from (r : regex) (s : string) (i : Z) : Z :=
  if test_at r s then i
  else match s with
       | "" => -1
       | String _ s' => search_from r s' (i + 1)
       end.

Definition search (r : regex) (s : string) : Z := search_from r s 0.

(** Pieces of [s] in the scan of [s.replace(r, f)] for a global [r]:
    [(true, m)] is a match, [(false, c)] a character between matches.
    [skip] counts the characters of the last match still to pass. *)
Fixpoint segments (r : regex) (s : string) (skip : nat) : list (bool * string) :=
  match s with
  | "" => match skip, run r "" with
          | O, _ :: _ => [(true, "")]
          | _, _ => []
          end
  | String c s' =>
      match skip with
      | S k => segments r s' k
      | O =>
          match run r s with
          | rest :: _ =>
              let n := (String.length s - String.length rest)%nat in
              match n with
              | O => (true, "") :: (false, String c "") :: segments r s' O
              | S k => (true, Js.take n s) :: segments r s' k
              end
          | [] => (false, String c "") :: segments r s' O
          end
      end
  end.

Definition replace (r : regex) (f : string → string) (s : string) : string :=
  Js.concat (map (λ '(b, x), if b : bool then f x else x) (segments r s O)).

(** Pattern syntax. *)
Definition chr (c : ascii) : regex := Chr (λ x, bool_decide (x = c)).
Definition chr_i (c : ascii) : regex := Chr (λ x, bool_decide (Js.lower x = Js.lower c)).

Fixpoint lit (s : string) : regex :=
  match s with
  | "" => Eps
  | String c s' => Seq (chr c) (lit s')
  end.

Fixpoint lit_i (s : string) : regex :=
  match s with
  | "" => Eps
  | String c s' => Seq (chr_i c) (lit_i s')
  end.

Definition line_terminator (c : ascii) : bool :=
  bool_decide (c = "010"%char) || bool_decide (c = "013"%char).

(** [.] without and with the [s] flag. *)
Definition dot : regex := Chr (λ c, negb (line_terminator c)).
Definition dot_all : regex := Chr (λ _, true).

Definition plus (r : regex) : regex := Seq r (Star r).
Definition opt (r : regex) : regex := Alt r Eps.

Fixpoint at_least (n : nat) (r : regex) : regex :=
  match n with
  | O => Star r
  | S n' => Seq r (at_least n' r)
  end.

Fixpoint seq (l : list regex) : regex :=
  match l with
  | [] => Eps
  | [r] => r
  | r :: l' => Seq r (seq l')
  end.

End Regex.

(** ** The tables *)

(** A row of [outreach_campaigns], without its primary key [id] (a UUID,
    the key of the table below).  Only the columns the embedded functions
    read or write are kept. *)
Record Campaign := {
  recipient_email : string;
  contact_name : option string;
  company_name : string;
  subject : option string;
  status : string;
  created_at : Z;
  updated_at : option Z;
  sent_at : option Z;
  delivered_at : option Z;
  opened_at : option Z;
  open_count : option Z;
  clicked_at : option Z;
  click_count : option Z;
  calendly_clicked_at : option Z;
  replied_at : option Z;
  bounced_at : option Z;
  unsubscribed_at : option Z;
  last_followup_at : option Z;
  followup_count : option Z;
  booking_email_sent_at : option Z;
  retry_scheduled_at : option Z;
  needs_review : bool;
  review_reason : option string;
  flagged_at : option Z
}.

(** One [column: value] entry of the object given to [updateCampaign]. *)
Inductive Assignment :=
| Status (v : string)
| Updated_at (v : Z)
| Opened_at (v : Z)
| Open_count (v : Z)
| Clicked_at (v : Z)
| Click_count (v : Z)
| Calendly_clicked_at (v : Z)
| Last_followup_at (v : Z)
| Followup_count (v : Z)
| Booking_email_sent_at (v : Z)
| Retry_scheduled_at (v : Z)
| Needs_review (v : bool)
| Review_reason (v : string)
| Flagged_at (v : Z).

Definition assign (c : Campaign) (a : Assignment) : Campaign :=
  {| recipient_email := recipient_email c;
     contact_name := contact_name c;
     company_name := company_name c;
     subject := subject c;
     status := match a with Status v => v | _ => status c end;
     created_at := created_at c;
     updated_at := match a with Updated_at v => Some v | _ => updated_at c end;
     sent_at := sent_at c;
     delivered_at := delivered_at c;
     opened_at := match a with Opened_at v => Some v | _ => opened_at c end;
     open_count := match a with Open_count v => Some v | _ => open_count c end;
     clicked_at := match a with Clicked_at v => Some v | _ => clicked_at c end;
     click_count := match a with Click_count v => Some v | _ => click_count c end;
     calendly_clicked_at :=
       match a with Calendly_clicked_at v => Some v | _ => calendly_clicked_at c end;
     replied_at := replied_at c;
     bounced_at := bounced_at c;
     unsubscribed_at := unsubscribed_at c;
     last_followup_at := match a with Last_followup_at v => Some v | _ => last_followup_at c end;
     followup_count := match a with Followup_count v => Some v | _ => followup_count c end;
     booking_email_sent_at :=
       match a with Booking_email_sent_at v => Some v | _ => booking_email_sent_at c end;
     retry_scheduled_at :=
       match a with Retry_scheduled_at v => Some v | _ => retry_scheduled_at c end;
     needs_review := match a with Needs_review v => v | _ => needs_review c end;
     review_reason := match a with Review_reason v => Some v | _ => review_reason c end;
     flagged_at := match a with Flagged_at v => Some v | _ => flagged_at c end |}.

(** [{...updates}] applied to a row, in the order of the entries. *)
Definition patch (updates : list Assignment) (c : Campaign) : Campaign :=
  fold_left assign updates c.

(** A row of [email_blocklist]; the table is keyed by its unique [email]. *)
Record BlocklistRow := {
  reason : string;
  details : option string;
  blocked_at : Z
}.

Record EngagementRow := {
  eng_campaign_id : string;
  event_type : string;
  metadata : list (string * option string);
  eng_created_at : Z
}.

Record ConversationRow := {
  conv_campaign_id : string;
  direction : string;
  message_type : string;
  conv_subject : string;
  message_content : string;
  conv_sent_at : Z
}.

(** The argument of [resend.emails.send]. *)
Record Email := {
  mail_from : string;
  mail_to : string;
  mail_subject : string;
  mail_text : string;
  mail_html : string;
  mail_headers : list (string * string)
}.

(** What [resend.emails.send] does: resolve with [data], resolve with
    [error], or throw. *)
Inductive ProviderReply :=
| Accepted (emailId : string)
| Rejected (message : string)
| Failed (message : string).

Record Stats := {
  emailsSent : Z;
  repliesProcessed : Z;
  bookingsTriggered : Z;
  followUpsSent : Z
}.

(** The state the engine works on.  [outbox] is the record of the provider
    calls made so far, each with the [campaignId] argument of the
    [sendEmail] that made it. *)
Record World := {
  outreach_campaigns : gmap string Campaign;
  email_blocklist : gmap string BlocklistRow;
  email_engagement : list EngagementRow;
  email_conversations : list ConversationRow;
  outbox : list (option string * Email);
  stats : Stats;
  clock : Z
}.

Definition with_campaigns (f : gmap string Campaign → gmap string Campaign) (w : World) : World :=
  {| outreach_campaigns := f (outreach_campaigns w); email_blocklist := email_blocklist w;
     email_engagement := email_engagement w; email_conversations := email_conversations w;
     outbox := outbox w; stats := stats w; clock := clock w |}.

Definition with_blocklist (f : gmap string BlocklistRow → gmap string BlocklistRow) (w : World) : World :=
  {| outreach_campaigns := outreach_campaigns w; email_blocklist := f (email_blocklist w);
     email_engagement := email_engagement w; email_conversations := email_conversations w;
     outbox := outbox w; stats := stats w; clock := clock w |}.

Definition with_engagement (f : list EngagementRow → list EngagementRow) (w : World) : World :=
  {| outreach_campaigns := outreach_campaigns w; email_blocklist := email_blocklist w;
     email_engagement := f (email_engagement w); email_conversations := email_conversations w;
     outbox := outbox w; stats := stats w; clock := clock w |}.

Definition with_conversations (f : list ConversationRow → list ConversationRow) (w : World) : World :=
  {| outreach_campaigns := outreach_campaigns w; email_blocklist := email_blocklist w;
     email_engagement := email_engagement w; email_conversations := f (email_conversations w);
     outbox := outbox w; stats := stats w; clock := clock w |}.

Definition with_outbox (f : list (option string * Email) → list (option string * Email)) (w : World) : World :=
  {| outreach_campaigns := outreach_campaigns w; email_blocklist := email_blocklist w;
     email_engagement := email_engagement w; email_conversations := email_conversations w;
     outbox := f (outbox w); stats := stats w; clock := clock w |}.

Definition with_stats (f : Stats → Stats) (w : World) : World :=
  {| outreach_campaigns := outreach_campaigns w; email_blocklist := email_blocklist w;
     email_engagement := email_engagement w; email_conversations := email_conversations w;
     outbox := outbox w; stats := f (stats w); clock := clock w |}.

Definition with_clock (f : Z → Z) (w : World) : World :=
  {| outreach_campaigns := outreach_campaigns w; email_blocklist := email_blocklist w;
     email_engagement := email_engagement w; email_conversations := email_conversations w;
     outbox := outbox w; stats := stats w; clock := f (clock w) |}.

(** ** Effects: state and exceptions *)

Inductive JsError :=
| TypeError (message : string).

Inductive Completion (A : Type) :=
| Normal (a : A)
| Throw (e : JsError).
Arguments Normal {A} a.
Arguments Throw {A} e.

Definition Eff (A : Type) : Type := World → Completion A * World.

#[global] Instance Eff_ret : MRet Eff := λ A a w, (Normal a, w).

#[global] Instance Eff_bind : MBind Eff := λ A B k m w,
  match m w with
  | (Normal a, w') => k a w'
  | (Throw e, w') => (Throw e, w')
  end.

Definition gets {A} (f : World → A) : Eff A := λ w, (Normal (f w), w).
Definition modify (f : World → World) : Eff unit := λ w, (Normal tt, f w).
Definition throw {A} (e : JsError) : Eff A := λ w, (Throw e, w).

(** [new Date()] *)
Definition now : Eff Z := gets clock.

(** [await this.delay(ms)] *)
Definition delay (ms : Z) : Eff unit := modify (with_clock (λ t, t + ms)).

(** The world a computation leaves, and its completion. *)
Definition exec {A} (m : Eff A) (w : World) : World := (m w).2.
Definition eval {A} (m : Eff A) (w : World) : Completion A := (m w).1.

Ltac eff_steps :=
  unfold mbind, mret, Eff_bind, Eff_ret, now, delay, gets, modify, throw;
  cbv beta iota zeta.

(** ** The engine *)

(** One step of [defaultSequence]: [{ delay, type, subject }]. *)
Record Step := {
  step_delay : Z;
  step_type : string;
  step_subject : string
}.

(** The fields set by the constructor, and the provider behind
    [this.resend]. *)
Record Engine := {
  fromEmail : string;
  senderName : string;
  trackingBaseUrl : string;
  calendlyLink : string;
  defaultSequence : list Step;
  resend : list (option string * Email) → Email → ProviderReply
}.

(** The three objects [sendEmail] returns: [{ sent: true, emailId }],
    [{ sent: false, reason: 'blocked' }] and [{ sent: false, error }]. *)
Inductive SendResult :=
| Sent (emailId : string)
| Blocked
| NotSent (error : string).

(** The [data] of a provider webhook event. *)
Record EventData := {
  email_id : string;
  to : string;
  link : option string
}.

Record Classification := {
  intent : string
}.

(** What [conversationHandler.handleReply] resolves to. *)
Record ClassificationResult := {
  classification : option Classification;
  response : option string;
  action : string
}.

Record Content := {
  content_subject : string;
  content_body : string
}.



Definition nl : string := String "010" "".
Definition dq : string := String "034" "".

(** [count || 0] *)
Definition or0 (n : option Z) : Z :=
  match n with
  | Some v => v
  | None => 0
  end.

(** *** Numbers as text *)






(** *** Reply cleaning *)

Import Regex.

Definition patterns : list regex := [
  seq [lit_i "On "; Star dot; lit_i " wrote:"];
  seq [lit_i "From:"; Star dot; lit_i (nl +:+ "Sent:"); Star dot; lit_i (nl +:+ "To:"); Star dot;
       lit_i (nl +:+ "Subject:"); Star dot];
  at_least 5 (chr "_");
  at_least 5 (chr "-");
  Seq (at_least 1 (chr ">")) (Star dot);
  seq [lit (nl +:+ nl +:+ ">"); Star dot_all; Eos]
].

(** One turn of the loop over [patterns]. *)
Definition cut (cleaned : string) (pattern : regex) : string :=
  let m := search pattern cleaned in
  if 0 <? m then Js.take (Z.to_nat m) cleaned else cleaned.

Definition cleanReplyText (text : string) : string :=
  if decide (text = "") then ""
  else Js.trim (fold_left cut patterns text).

Section Engine.

Variable E : Engine.

(** *** Helper methods *)

Definition latest (best : option (string * Campaign)) (row : string * Campaign)
  : option (string * Campaign) :=
  match best with
  | None => Some row
  | Some b => if created_at b.2 <? created_at row.2 then Some row else best
  end.

(** [.eq('recipient_email', ...).order('created_at', { ascending: false })
    .limit(1).single()] *)
Definition findCampaignByEmail (email : string) : Eff (option (string * Campaign)) :=
  let normalizedEmail := Js.trim (Js.toLowerCase email) in
  gets (λ w, fold_left latest
               (filter (λ row, recipient_email row.2 = normalizedEmail)
                       (map_to_list (outreach_campaigns w)))
               None).

Definition updateCampaign (campaignId : string) (updates : list Assignment) : Eff unit :=
  t ← now;
  modify (with_campaigns (alter (patch (updates ++ [Updated_at t])) campaignId)).

Definition logEngagement (campaignId eventType : string)
    (metadata : list (string * option string)) : Eff unit :=
  t ← now;
  modify (with_engagement (λ rows, rows ++
    [{| eng_campaign_id := campaignId; event_type := eventType;
        metadata := metadata; eng_created_at := t |}])).

Definition storeOutgoingEmail (campaignId : string) (email : Content) (type : string) : Eff unit :=
  t ← now;
  modify (with_conversations (λ rows, rows ++
    [{| conv_campaign_id := campaignId; direction := "outgoing"; message_type := type;
        conv_subject := content_subject email; message_content := content_body email;
        conv_sent_at := t |}])).

Definition isEmailBlocked (email : string) : Eff bool :=
  gets (λ w, bool_decide (is_Some (email_blocklist w !! Js.toLowerCase email))).

Definition addToUnsubscribeList (email reason : string) : Eff unit :=
  t ← now;
  modify (with_blocklist
    <[Js.toLowerCase email :=
        {| reason := "unsubscribe"; details := Some reason; blocked_at := t |}]>).

Definition scheduleRetry (campaignId : string) (hoursDelay : Z) : Eff unit :=
  t ← now;
  let retryAt := t + hoursDelay * 60 * 60 * 1000 in
  updateCampaign campaignId [Retry_scheduled_at retryAt; Status "retry_scheduled"].

Definition flagForReview (campaignId reason : string) : Eff unit :=
  t ← now;
  updateCampaign campaignId [Needs_review true; Review_reason reason; Flagged_at t].

(** *** Sending with tracking *)

(** The pattern of [addTracking]: [http], an optional [s], [://], then one
    or more characters other than white space, [<], [>] and the double
    quote; global. *)
Definition urlChar (c : ascii) : bool :=
  negb (Ascii.is_space c || bool_decide (c ∈ ["<"; ">"; "034"]%char)).

Definition urlPattern : regex :=
  seq [lit "http"; opt (chr "s"); lit "://"; plus (Chr urlChar)].

(** The callback of the replacement in [addTracking]. *)
Definition wrapLink (campaignId : string) (match_ : string) : string :=
  if Js.includes "/api/track" match_ || Js.includes "calendly" match_ then match_
  else trackingBaseUrl E +:+ "/api/track/click/" +:+ campaignId +:+ "?url="
       +:+ Js.encodeURIComponent match_.

Definition trackingPixel (campaignId : string) : string :=
  "<img src=" +:+ dq +:+ trackingBaseUrl E +:+ "/api/track/open/" +:+ campaignId +:+ dq
  +:+ " width=" +:+ dq +:+ "1" +:+ dq +:+ " height=" +:+ dq +:+ "1" +:+ dq
  +:+ " style=" +:+ dq +:+ "display:none;" +:+ dq +:+ " alt=" +:+ dq +:+ dq +:+ " />".

Definition addTracking (body : string) (campaignId : option string) : string :=
  match campaignId with
  | Some (String c i) =>
      let trackedBody := replace urlPattern (wrapLink (String c i)) body in
      trackedBody +:+ trackingPixel (String c i)
  | _ => body
  end.

(** [this.resend.emails.send(...)]: the call is recorded, the provider
    answers. *)
Definition resend_emails_send (campaignId : option string) (mail : Email) : Eff ProviderReply :=
  λ w, (Normal (resend E (outbox w) mail), with_outbox (λ l, l ++ [(campaignId, mail)]) w).

(** The object given to [this.resend.emails.send] by [sendEmail]. *)
Definition sendRequest (to subject body : string) (campaignId : option string) : Email :=
  let trackedBody := addTracking body campaignId in
  let unsubscribeUrl :=
    trackingBaseUrl E +:+ "/api/unsubscribe/" +:+ Js.encodeURIComponent to in
  {| mail_from := senderName E +:+ " <" +:+ fromEmail E +:+ ">";
     mail_to := to;
     mail_subject := subject;
     mail_text := body;
     mail_html := replace (chr "010") (λ _, "<br>") trackedBody;
     mail_headers := [("List-Unsubscribe", "<" +:+ unsubscribeUrl +:+ ">");
                      ("List-Unsubscribe-Post", "List-Unsubscribe=One-Click")] |}.

Definition countEmailSent (s : Stats) : Stats :=
  {| emailsSent := emailsSent s + 1; repliesProcessed := repliesProcessed s;
     bookingsTriggered := bookingsTriggered s; followUpsSent := followUpsSent s |}.

Definition sendEmail (to subject body : string) (campaignId : option string) : Eff SendResult :=
  isBlocked ← isEmailBlocked to;
  if isBlocked : bool then mret Blocked
  else
    reply ← resend_emails_send campaignId (sendRequest to subject body campaignId);
    match reply with
    | Rejected message => mret (NotSent message)
    | Accepted emailId =>
        modify (with_stats countEmailSent);;
        mret (Sent emailId)
    | Failed message => mret (NotSent message)
    end.

(** [firstName] and the greeting shared by the templates. *)
Definition firstNameOf (campaign : Campaign) : string :=
  if Js.truthy (contact_name campaign)
  then Js.firstWord (default "" (contact_name campaign))
  else "".

Definition greeting (firstName : string) : string :=
  "Hi" +:+ (if Js.truthy (Some firstName) then " " +:+ firstName else "") +:+ ",".

Definition sendBookingEmail (campaign : string * Campaign) : Eff unit :=
  let firstName := firstNameOf campaign.2 in
  let subject :=
    "Let's find a time to chat, " +:+ Js.orElse (Some firstName) (company_name campaign.2) in
  let body := greeting firstName +:+ "

Great to hear back from you! I'd love to learn more about what you're building at "
    +:+ company_name campaign.2 +:+ ".

Here's my calendar - pick any time that works for you:

" +:+ calendlyLink E +:+ "

The call will be quick (15-20 minutes) and focused on understanding your specific situation.

Looking forward to it!

" +:+ senderName E in
  _ ← sendEmail (recipient_email campaign.2) subject body (Some campaign.1);
  t ← now;
  updateCampaign campaign.1 [Status "booking_sent"; Booking_email_sent_at t].

(** [responseText.replace('[CALENDAR_LINK]', ...)]: the link is taken as it
    is (no [$] replacement pattern in it). *)
Definition sendFollowUpEmail (campaign : string * Campaign) (responseText type : string)
  : Eff unit :=
  let body := Js.replaceFirst "[CALENDAR_LINK]" (calendlyLink E) responseText in
  let subject := "Re: " +:+ Js.orElse (subject campaign.2) (company_name campaign.2) in
  _ ← sendEmail (recipient_email campaign.2) subject body (Some campaign.1);
  storeOutgoingEmail campaign.1 {| content_subject := subject; content_body := body |} type.

(** *** Follow-up sequencer *)

Definition getCurrentSequenceStep (status : string) : nat :=
  if decide (status = "sent") then 0
  else if decide (status = "follow_up_1") then 1
  else if decide (status = "follow_up_2") then 2
  else 3.

(** [campaign.sent_at || campaign.created_at] *)
Definition sentAtOf (campaign : Campaign) : Z :=
  default (created_at campaign) (sent_at campaign).

(** The body of [shouldSendFollowUp] once [now] is read.  The hours are
    exact rationals. *)
Definition shouldSendFollowUpAt (t : Z) (campaign : Campaign) : bool :=
  let sentAt := sentAtOf campaign in
  let currentStep := getCurrentSequenceStep (status campaign) in
  match defaultSequence E !! currentStep with
  | None => false
  | Some nextStep =>
      let lastFollowUp :=
        match last_followup_at campaign with
        | Some l => l
        | None => sentAt
        end in
      let hoursSinceLastTouch := Qmake (t - lastFollowUp) (1000 * 60 * 60) in
      let hoursNeeded :=
        match currentStep with
        | O => step_delay nextStep
        | S previous =>
            step_delay nextStep - from_option step_delay 0 (defaultSequence E !! previous)
        end in
      Qle_bool (inject_Z hoursNeeded) hoursSinceLastTouch
  end.

Definition shouldSendFollowUp (campaign : Campaign) : Eff bool :=
  t ← now;
  mret (shouldSendFollowUpAt t campaign).

(** [templates[step.type] || templates.follow_up_1] *)
Definition generateFollowUpEmail (campaign : Campaign) (step : Step) : Content :=
  let firstName := firstNameOf campaign in
  let company := company_name campaign in
  let follow_up_1 :=
    {| content_subject := Js.orElse (Some firstName) company +:+ " - quick follow-up";
       content_body := greeting firstName +:+ "

I wanted to circle back on my previous note about " +:+ company +:+ ".

I know things get busy, so I'll keep this brief: if you're still thinking about how to reduce your dependency on the business while maintaining growth, I'd love to chat.

Even a 15-minute call could be valuable to explore if there's a fit.

" +:+ calendlyLink E +:+ "

Best,
" +:+ senderName E |} in
  let follow_up_2 :=
    {| content_subject := "One more thought for " +:+ company;
       content_body := greeting firstName +:+ "

I've been thinking about " +:+ company +:+ " and wanted to share one quick observation.

Many founders at your stage have built something valuable but find themselves as the bottleneck for key decisions. The business works, but it can't scale without you.

If that resonates, I've helped several businesses like yours build the leadership layer and systems to grow without adding chaos.

Worth a quick conversation?

" +:+ calendlyLink E +:+ "

" +:+ senderName E |} in
  let follow_up_final :=
    {| content_subject := "Last note - " +:+ company;
       content_body := greeting firstName +:+ "

I'll keep this short - this will be my last follow-up.

If building a business that can thrive without your daily involvement isn't a priority right now, I completely understand.

But if it is something you're thinking about, even down the road, I'm happy to be a resource.

Either way, I wish you continued success with " +:+ company +:+ ".

Best,
" +:+ senderName E +:+ "

P.S. My calendar is always open if you want to chat: " +:+ calendlyLink E |} in
  if decide (step_type step = "follow_up_2") then follow_up_2
  else if decide (step_type step = "follow_up_final") then follow_up_final
  else follow_up_1.

(** [campaign] is the row as the caller read it, with its id. *)
Definition sendNextFollowUp (campaign : string * Campaign) : Eff unit :=
  let currentStep := getCurrentSequenceStep (status campaign.2) in
  match defaultSequence E !! currentStep with
  | None => mret tt
  | Some nextStep =>
      let followUpContent := generateFollowUpEmail campaign.2 nextStep in
      _ ← sendEmail (recipient_email campaign.2) (content_subject followUpContent)
            (content_body followUpContent) (Some campaign.1);
      t ← now;
      updateCampaign campaign.1
        [Status (step_type nextStep); Last_followup_at t;
         Followup_count (or0 (followup_count campaign.2) + 1)];;
      storeOutgoingEmail campaign.1 followUpContent (step_type nextStep)
  end.

(** The filter of the query of [processFollowUpQueue]. *)
Definition needsFollowUp (c : Campaign) : bool :=
  bool_decide (status c ∈ ["sent"; "follow_up_1"; "follow_up_2"])
  && bool_decide (replied_at c = None)
  && bool_decide (bounced_at c = None)
  && bool_decide (unsubscribed_at c = None).

Definition selectFollowUps (w : World) : list (string * Campaign) :=
  filter (λ row, needsFollowUp row.2) (map_to_list (outreach_campaigns w)).

(** The [for] loop of [processFollowUpQueue]. *)
Fixpoint followUpLoop (campaigns : list (string * Campaign)) (followUpsSent : Z) : Eff Z :=
  match campaigns with
  | [] => mret followUpsSent
  | campaign :: rest =>
      shouldFollowUp ← shouldSendFollowUp campaign.2;
      if shouldFollowUp : bool then
        sendNextFollowUp campaign;;
        delay 10000;;
        followUpLoop rest (followUpsSent + 1)
      else followUpLoop rest followUpsSent
  end.

Definition processFollowUpQueue : Eff Z :=
  campaigns ← gets selectFollowUps;
  n ← followUpLoop campaigns 0;
  modify (with_stats (λ s,
    {| emailsSent := emailsSent s; repliesProcessed := repliesProcessed s;
       bookingsTriggered := bookingsTriggered s; followUpsSent := followUpsSent s + n |}));;
  mret n.

(** *** Reply dispatch *)

Definition handleClassifiedReply (campaign : string * Campaign)
    (classificationResult : ClassificationResult) : Eff unit :=
  match classification classificationResult with
  | None => throw (TypeError "Cannot read properties of undefined (reading 'intent')")
  | Some _ =>
      let action := action classificationResult in
      if decide (action = "send_response_and_monitor" ∨ action = "send_response_and_nurture")
      then
        if Js.truthy (response classificationResult)
        then sendFollowUpEmail campaign (default "" (response classificationResult))
               "reply_response"
        else mret tt
      else if decide (action = "send_calendar_link") then
        sendBookingEmail campaign;;
        modify (with_stats (λ s,
          {| emailsSent := emailsSent s; repliesProcessed := repliesProcessed s;
             bookingsTriggered := bookingsTriggered s + 1; followUpsSent := followUpsSent s |}))
      else if decide (action = "mark_closed") then mret tt
      else if decide (action = "remove_from_list") then
        addToUnsubscribeList (recipient_email campaign.2) "requested"
      else if decide (action = "wait_and_retry") then scheduleRetry campaign.1 72
      else if decide (action = "flag_for_human_review") then
        flagForReview campaign.1 "unclear_reply"
      else mret tt
  end.

(** *** Tracking *)

Definition trackOpen (campaignId : string) : Eff string :=
  campaign ← gets (λ w, outreach_campaigns w !! campaignId);
  match campaign with
  | Some c =>
      t ← now;
      let updates :=
        Open_count (or0 (open_count c) + 1)
        :: match opened_at c with None => [Opened_at t] | Some _ => [] end in
      updateCampaign campaignId updates;;
      logEngagement campaignId "open" [("source", Some "pixel")]
  | None => mret tt
  end;;
  mret "R0lGODlhAQABAIAAAAAAAP///yH5BAEAAAAALAAAAAABAAEAAAIBRAA7".

Definition trackClick (campaignId targetUrl : string) : Eff string :=
  campaign ← gets (λ w, outreach_campaigns w !! campaignId);
  match campaign with
  | Some c =>
      t ← now;
      let updates :=
        Click_count (or0 (click_count c) + 1)
        :: match clicked_at c with None => [Clicked_at t] | Some _ => [] end in
      updateCampaign campaignId updates;;
      logEngagement campaignId "click" [("url", Some targetUrl)]
  | None => mret tt
  end;;
  mret targetUrl.

Definition handleEmailOpened (data : EventData) : Eff unit :=
  campaign ← findCampaignByEmail (to data);
  match campaign with
  | Some (id, c) =>
      t ← now;
      match opened_at c with
      | None =>
          updateCampaign id [Opened_at t; Open_count (or0 (open_count c) + 1)];;
          logEngagement id "open" [("email_id", Some (email_id data))]
      | Some _ => updateCampaign id [Open_count (or0 (open_count c) + 1)]
      end
  | None => mret tt
  end.

Definition handleEmailClicked (data : EventData) : Eff unit :=
  campaign ← findCampaignByEmail (to data);
  match campaign with
  | Some (id, c) =>
      t ← now;
      updateCampaign id [Clicked_at t; Click_count (or0 (click_count c) + 1)];;
      logEngagement id "click" [("email_id", Some (email_id data)); ("link", link data)];;
      if Js.truthy (link data) && Js.includes "calendly" (default "" (link data)) then
        t' ← now;
        updateCampaign id [Status "booking"; Calendly_clicked_at t']
      else mret tt
  | None => mret tt
  end.

(** *** Analytics *)



End Engine.

(** The engine as the constructor builds it when no environment variable is
    set, over a provider [r]. *)
Definition defaultEngine (r : list (option string * Email) → Email → ProviderReply) : Engine :=
  {| fromEmail := "maggie@maggieforbesstrategies.com";
     senderName := "Maggie Forbes";
     trackingBaseUrl := "https://web-production-486cb.up.railway.app";
     calendlyLink := "https://calendly.com/maggieforbes/discovery";
     defaultSequence :=
       [{| step_delay := 72; step_type := "follow_up_1"; step_subject := "Quick follow-up" |};
        {| step_delay := 168; step_type := "follow_up_2"; step_subject := "One more thought" |};
        {| step_delay := 336; step_type := "follow_up_final"; step_subject := "Last note" |}];
     resend := r |}.

(** * Notions of the specification and sample data *)

(** ** The due-check of the sequencer *)

(** The time the wait is counted from. *)
Definition lastTouch (c : Campaign) : Z :=
  match last_followup_at c with
  | Some l => l
  | None => sentAtOf c
  end.

(** The wait, in hours, before the step at index [i]. *)
Definition incrementalDelay (E : Engine) (i : nat) (step : Step) : Z :=
  match i with
  | O => step_delay step
  | S previous => step_delay step - from_option step_delay 0 (defaultSequence E !! previous)
  end.

Definition hour : Z := 3600000.

(** The due-check in the words of the specification: the hours are counted
    from the later of the original send and the last follow-up. *)
Definition dueSinceLaterTouch (E : Engine) (t : Z) (c : Campaign) : bool :=
  match defaultSequence E !! getCurrentSequenceStep (status c) with
  | None => false
  | Some step =>
      let later := match last_followup_at c with
                   | Some l => Z.max (sentAtOf c) l
                   | None => sentAtOf c
                   end in
      Qle_bool (inject_Z (incrementalDelay E (getCurrentSequenceStep (status c)) step))
               (Qmake (t - later) (1000 * 60 * 60))
  end.

(** Sample rows. *)
Definition sample (email status : string)
    (sentAt deliveredAt clickedAt repliedAt lastFollowUpAt : option Z) : Campaign :=
  {| recipient_email := email; contact_name := Some "Ann Lee";
     company_name := "Acme"; subject := None; status := status; created_at := 0;
     updated_at := None; sent_at := sentAt; delivered_at := deliveredAt; opened_at := None;
     open_count := None; clicked_at := clickedAt; click_count := None;
     calendly_clicked_at := None; replied_at := repliedAt; bounced_at := None;
     unsubscribed_at := None; last_followup_at := lastFollowUpAt; followup_count := None;
     booking_email_sent_at := None; retry_scheduled_at := None; needs_review := false;
     review_reason := None; flagged_at := None |}.

(** A campaign of the eligible set whose first follow-up went out 73 hours
    after the first send, and whose [sent_at] was then moved one minute
    past the follow-up and its status back to [sent] (as the provider's
    [email.sent] event for the follow-up does). *)
Definition campaignSentAfterFollowUp : Campaign :=
  sample "lead@example.com" "sent" (Some (73 * hour + 60000)) None None None
         (Some (73 * hour)).

Definition sentCampaign (sentAt : Z) : Campaign :=
  sample "lead@example.com" "sent" (Some sentAt) None None None None.

Definition alwaysAccepts : list (option string * Email) → Email → ProviderReply :=
  λ _ _, Accepted "msg_1".

Definition alwaysRejects : list (option string * Email) → Email → ProviderReply :=
  λ _ _, Rejected "rate limit exceeded".

Definition noStats : Stats :=
  {| emailsSent := 0; repliesProcessed := 0; bookingsTriggered := 0; followUpsSent := 0 |}.

(** A world holding the campaigns [rows] and the block list [blocked]. *)
Definition worldOf (rows : list (string * Campaign)) (blocked : list (string * BlocklistRow))
    (t : Z) : World :=
  {| outreach_campaigns := list_to_map rows; email_blocklist := list_to_map blocked;
     email_engagement := []; email_conversations := []; outbox := [];
     stats := noStats; clock := t |}.

(** ** The analytics funnel *)




(** ** Sending *)

(** [to] is on the block list, whose rows are keyed by lower-cased email. *)
Definition blocked (w : World) (to : string) : Prop :=
  is_Some (email_blocklist w !! Js.toLowerCase to).

(** The provider calls made for the campaign [id]. *)
Definition sentTo (id : string) (w : World) : list (option string * Email) :=
  filter (λ e, e.1 = Some id) (outbox w).

(** The conversation rows of the campaign [id]. *)
Definition conversationOf (id : string) (w : World) : list ConversationRow :=
  filter (λ r, conv_campaign_id r = id) (email_conversations w).

(** [w'] differs from [w] at most by provider calls made for [cid], by the
    statistics and by the clock. *)
Definition onlySends (cid : option string) (w w' : World) : Prop :=
  outreach_campaigns w' = outreach_campaigns w ∧
  email_blocklist w' = email_blocklist w ∧
  email_engagement w' = email_engagement w ∧
  email_conversations w' = email_conversations w ∧
  clock w' = clock w ∧
  ∃ l, outbox w' = outbox w ++ l ∧ Forall (λ e, e.1 = cid) l.

(** The row [sendNextFollowUp] stores for the step [step]. *)
Definition followUpRow (E : Engine) (id : string) (c : Campaign) (step : Step) (t : Z)
  : ConversationRow :=
  {| conv_campaign_id := id; direction := "outgoing"; message_type := step_type step;
     conv_subject := content_subject (generateFollowUpEmail E c step);
     message_content := content_body (generateFollowUpEmail E c step);
     conv_sent_at := t |}.

(** The sequencer sweeps at the times [times]. *)
Definition sweeps (E : Engine) (times : list Z) (w : World) : World :=
  fold_left (λ w t, exec (processFollowUpQueue E) (with_clock (λ _, t) w)) times w.

Definition flagged (c : Campaign) : Prop :=
  is_Some (replied_at c) ∨ is_Some (bounced_at c) ∨ is_Some (unsubscribed_at c).

(** A lead that unsubscribed through the one-click endpoint (which writes
    the block list only) and is due for its first follow-up. *)
Definition blockedLead : World :=
  worldOf [("c1", sentCampaign 0)]
          [("lead@example.com",
            {| reason := "unsubscribe"; details := Some "one-click"; blocked_at := 10 |})]
          (73 * hour).

(** The actions [handleClassifiedReply] knows. *)
Definition knownActions : list string :=
  ["send_response_and_monitor"; "send_response_and_nurture"; "send_calendar_link";
   "mark_closed"; "remove_from_list"; "wait_and_retry"; "flag_for_human_review"].

Definition oneLead : World := worldOf [("c1", sentCampaign 0)] [] (5 * hour).

(** A lead that clicked once, at time 1000. *)
Definition clickedLead : World :=
  worldOf [("c1", assign (sample "lead@example.com" "sent" (Some 0) None (Some 1000) None None)
                    (Click_count 1))] [] 5000.

Definition clickEvent (url : string) : EventData :=
  {| email_id := "e1"; to := "lead@example.com"; link := Some url |}.

Definition unknownAction : ClassificationResult :=
  {| classification := Some {| intent := "UNKNOWN" |};
     response := Some "Thanks for your reply";
     action := "archive" |}.

(** Nothing of the campaign [id] differs between [w] and [w']: its row, the
    provider calls made for it, its conversation rows. *)
Definition untouched (id : string) (w w' : World) : Prop :=
  outreach_campaigns w' !! id = outreach_campaigns w !! id ∧
  sentTo id w' = sentTo id w ∧
  conversationOf id w' = conversationOf id w.

(** A lead that replied, and one that is due for a follow-up. *)
Definition repliedLead : World :=
  worldOf [("c1", sample "lead@example.com" "sent" (Some 0) None None (Some 1000) None);
           ("c2", sample "other@example.com" "sent" (Some 0) None None None None)]
          [] (80 * hour).

(** ** Patterns *)

Import Regex.

(** A pattern without [$]. *)
Fixpoint eos_free (r : regex) : bool :=
  match r with
  | Chr _ | Eps => true
  | Seq r1 r2 | Alt r1 r2 => eos_free r1 && eos_free r2
  | Star r1 => eos_free r1
  | Eos => false
  end.

(** A match at the start of a text stays one when the text is extended. *)
Definition ext_closed (r : regex) : Prop :=
  ∀ s x, test_at r s = true → test_at r (s +:+ x) = true.


(** [r] matches nowhere in [s]. *)
Definition no_match (r : regex) (s : string) : Prop :=
  ∀ k, test_at r (Js.drop k s) = false.

Definition is_prefix (a t : string) : Prop := ∃ b, t = a +:+ b.

(** ** Reply cleaning in the words of the specification *)

(** The earliest position at which one of the markers matches. *)
Definition earliestBoundary (text : string) : option Z :=
  foldr (λ pattern acc,
           let m := search pattern text in
           if m <? 0 then acc
           else match acc with
                | None => Some m
                | Some a => Some (Z.min a m)
                end)
        None patterns.

(** Everything at or after the earliest boundary is discarded. *)
Definition cleanAtEarliestBoundary (text : string) : string :=
  match earliestBoundary text with
  | Some m => Js.trim (Js.take (Z.to_nat m) text)
  | None => Js.trim text
  end.

Definition quotedReply : string :=
  "Interesting!" +:+ nl +:+ nl +:+ "On Mon, Jan 1 wrote:" +:+ nl +:+ "> original message".

Definition replyBelowQuote : string :=
  "> Are you free on Tuesday?" +:+ nl +:+ "Yes, Tuesday works.".

(** ** Link instrumentation *)




Fixpoint all (p : ascii → bool) (s : string) : bool :=
  match s with
  | "" => true
  | String c s' => p c && all p s'
  end.


(** * Event ingestion and reply processing

    The rest of the engine: [processWebhook] and its handlers,
    [processIncomingReply] with [extractEmail] and [htmlToText], and
    [addToBounceList]. *)

(** ** Matching without the global flag *)

(** [s.match(r)[0]]: the text of the leftmost match, [None] for [null]. *)
Fixpoint first_match (r : regex) (s : string) : option string :=
  match run r s with
  | rest :: _ => Some (Js.take (String.length s - String.length rest) s)
  | [] => match s with
          | "" => None
          | String _ s' => first_match r s'
          end
  end.

(** ** The remaining columns of [outreach_campaigns]

    The handlers below also write [resend_email_id], [bounce_reason],
    [unsubscribe_reason] and [last_reply_text], which no function of the
    engine reads.  These columns are held beside the rows of the [World],
    under the same key; a row without an entry has them all [null]. *)

Record Details := {
  resend_email_id : option string;
  bounce_reason : option string;
  unsubscribe_reason : option string;
  last_reply_text : option string
}.

Definition noDetails : Details :=
  {| resend_email_id := None; bounce_reason := None; unsubscribe_reason := None;
     last_reply_text := None |}.

Record Store := {
  world : World;
  campaign_details : gmap string Details
}.

Definition detailsOf (s : Store) (id : string) : Details :=
  default noDetails (campaign_details s !! id).

(** One [column: value] entry of an update, over all the columns. *)
Inductive Column :=
| Narrow (a : Assignment)
| Sent_at (v : Z)
| Delivered_at (v : Z)
| Replied_at (v : Z)
| Bounced_at (v : Z)
| Unsubscribed_at (v : Z)
| Resend_email_id (v : string)
| Bounce_reason (v : string)
| Unsubscribe_reason (v : string)
| Last_reply_text (v : string).

Coercion Narrow : Assignment >-> Column.

Definition assignWide (c : Campaign) (a : Column) : Campaign :=
  let c0 := match a with Narrow a' => assign c a' | _ => c end in
  {| recipient_email := recipient_email c0;
     contact_name := contact_name c0;
     company_name := company_name c0;
     subject := subject c0;
     status := status c0;
     created_at := created_at c0;
     updated_at := updated_at c0;
     sent_at := match a with Sent_at v => Some v | _ => sent_at c0 end;
     delivered_at := match a with Delivered_at v => Some v | _ => delivered_at c0 end;
     opened_at := opened_at c0;
     open_count := open_count c0;
     clicked_at := clicked_at c0;
     click_count := click_count c0;
     calendly_clicked_at := calendly_clicked_at c0;
     replied_at := match a with Replied_at v => Some v | _ => replied_at c0 end;
     bounced_at := match a with Bounced_at v => Some v | _ => bounced_at c0 end;
     unsubscribed_at :=
       match a with Unsubscribed_at v => Some v | _ => unsubscribed_at c0 end;
     last_followup_at := last_followup_at c0;
     followup_count := followup_count c0;
     booking_email_sent_at := booking_email_sent_at c0;
     retry_scheduled_at := retry_scheduled_at c0;
     needs_review := needs_review c0;
     review_reason := review_reason c0;
     flagged_at := flagged_at c0 |}.

Definition assignDetails (d : Details) (a : Column) : Details :=
  {| resend_email_id := match a with Resend_email_id v => Some v | _ => resend_email_id d end;
     bounce_reason := match a with Bounce_reason v => Some v | _ => bounce_reason d end;
     unsubscribe_reason :=
       match a with Unsubscribe_reason v => Some v | _ => unsubscribe_reason d end;
     last_reply_text := match a with Last_reply_text v => Some v | _ => last_reply_text d end |}.

(** Effects over the store. *)
Definition Ing (A : Type) : Type := Store → Completion A * Store.

#[global] Instance Ing_ret : MRet Ing := λ A a s, (Normal a, s).

#[global] Instance Ing_bind : MBind Ing := λ A B k m s,
  match m s with
  | (Normal a, s') => k a s'
  | (Throw e, s') => (Throw e, s')
  end.

(** A computation on the [World], run in the store. *)
Definition lift {A} (m : Eff A) : Ing A := λ s,
  let r := m (world s) in
  (r.1, {| world := r.2; campaign_details := campaign_details s |}).

Definition execIng {A} (m : Ing A) (s : Store) : Store := (m s).2.
Definition evalIng {A} (m : Ing A) (s : Store) : Completion A := (m s).1.

Ltac ing_steps :=
  unfold mbind, mret, Ing_bind, Ing_ret, lift;
  cbv beta iota zeta.

(** [updateCampaign] over all the columns: the row with the id, if there is
    one, gets the entries and [updated_at]. *)
Definition updateCampaignWide (campaignId : string) (updates : list Column) : Ing unit := λ s,
  let t := clock (world s) in
  (Normal tt,
   {| world := with_campaigns
                 (alter (λ c, fold_left assignWide (updates ++ [Narrow (Updated_at t)]) c)
                        campaignId) (world s);
      campaign_details :=
        match outreach_campaigns (world s) !! campaignId with
        | Some _ =>
            <[campaignId := fold_left assignDetails updates (detailsOf s campaignId)]>
              (campaign_details s)
        | None => campaign_details s
        end |}).

Definition addToBounceList (email : string) (reason : option string) : Eff unit :=
  t ← now;
  modify (with_blocklist
    <[Js.toLowerCase email := {| reason := "bounce"; details := reason; blocked_at := t |}]>).

(** ** Webhook handling *)

(** A provider event: its [type], its [data], and [data.bounce?.message]. *)
Record WebhookEvent := {
  ev_type : string;
  ev_data : EventData;
  ev_bounce : option string
}.

(** [{ processed: true, type }] *)
Record Processed := {
  processed : bool;
  processed_type : string
}.

Definition handleEmailSent (data : EventData) : Ing unit :=
  campaign ← lift (findCampaignByEmail (to data));
  match campaign with
  | Some (id, _) =>
      t ← lift now;
      updateCampaignWide id [Resend_email_id (email_id data); Sent_at t; Narrow (Status "sent")]
  | None => mret tt
  end.

Definition handleEmailDelivered (data : EventData) : Ing unit :=
  campaign ← lift (findCampaignByEmail (to data));
  match campaign with
  | Some (id, _) =>
      t ← lift now;
      updateCampaignWide id [Delivered_at t]
  | None => mret tt
  end.

Definition handleEmailBounced (data : EventData) (bounce : option string) : Ing unit :=
  campaign ← lift (findCampaignByEmail (to data));
  match campaign with
  | Some (id, _) =>
      t ← lift now;
      updateCampaignWide id
        [Narrow (Status "bounced"); Bounced_at t; Bounce_reason (Js.orElse bounce "Unknown")];;
      lift (addToBounceList (to data) bounce)
  | None => mret tt
  end.

Definition handleEmailComplained (data : EventData) : Ing unit :=
  campaign ← lift (findCampaignByEmail (to data));
  match campaign with
  | Some (id, _) =>
      t ← lift now;
      updateCampaignWide id
        [Narrow (Status "unsubscribed"); Unsubscribed_at t; Unsubscribe_reason "spam_complaint"]
  | None => mret tt
  end;;
  lift (addToUnsubscribeList (to data) "spam_complaint").

Definition handleDeliveryDelayed (data : EventData) : Ing unit :=
  campaign ← lift (findCampaignByEmail (to data));
  match campaign with
  | Some (id, _) => lift (logEngagement id "delivery_delayed" [("email_id", Some (email_id data))])
  | None => mret tt
  end.

Definition processWebhook (event : WebhookEvent) : Ing Processed :=
  let type := ev_type event in
  (if decide (type = "email.sent") then handleEmailSent (ev_data event)
   else if decide (type = "email.delivered") then handleEmailDelivered (ev_data event)
   else if decide (type = "email.opened") then lift (handleEmailOpened (ev_data event))
   else if decide (type = "email.clicked") then lift (handleEmailClicked (ev_data event))
   else if decide (type = "email.bounced") then
     handleEmailBounced (ev_data event) (ev_bounce event)
   else if decide (type = "email.complained") then handleEmailComplained (ev_data event)
   else if decide (type = "email.delivery_delayed") then handleDeliveryDelayed (ev_data event)
   else mret tt);;
  mret {| processed := true; processed_type := type |}.

(** ** Reply handling *)

(** [<], one or more characters other than [>], [>]; the group is what
    lies between the brackets. *)
Definition notClosing (c : ascii) : bool := negb (bool_decide (c = ">"%char)).

Definition anglePattern : regex := seq [chr "<"; plus (Chr notClosing); chr ">"].

Definition group1 (m : string) : string :=
  Js.take (String.length m - 2) (Js.drop 1 m).

Definition extractEmail (fromString : string) : string :=
  match first_match anglePattern fromString with
  | Some m => Js.toLowerCase (group1 m)
  | None => Js.toLowerCase fromString
  end.

Definition htmlRules : list (regex * string) := [
  (seq [lit_i "<br"; Star (Chr Ascii.is_space); opt (chr "/"); chr ">"], nl);
  (lit_i "</p>", nl +:+ nl);
  (seq [chr "<"; plus (Chr notClosing); chr ">"], "");
  (lit "&nbsp;", " ");
  (lit "&amp;", "&");
  (lit "&lt;", "<");
  (lit "&gt;", ">")
].

Definition htmlToText (html : option string) : string :=
  if Js.truthy html
  then Js.trim (fold_left (λ text rule, replace rule.1 (λ _, rule.2) text) htmlRules
                          (default "" html))
  else "".

Record InboundEmail := {
  inbound_from : string;
  inbound_to : string;
  inbound_subject : string;
  inbound_text : option string;
  inbound_html : option string
}.

(** [{ from: senderEmail, subject, receivedAt }] *)
Record ReplyMeta := {
  meta_from : string;
  meta_subject : string;
  receivedAt : Z
}.

(** What [processIncomingReply] returns. *)
Inductive ReplyOutcome :=
| NoCampaignFound
| ReplyProcessed (campaignId : string) (classification : option Classification)
                 (action : string).

Definition countReplyProcessed (s : Stats) : Stats :=
  {| emailsSent := emailsSent s; repliesProcessed := repliesProcessed s + 1;
     bookingsTriggered := bookingsTriggered s; followUpsSent := followUpsSent s |}.

Section Replies.

Variable E : Engine.

(** [this.conversationHandler.handleReply], of a module that is not part of
    the engine: any computation on the store. *)
Variable handleReply : string → string → ReplyMeta → Ing ClassificationResult.

Definition processIncomingReply (inboundEmail : InboundEmail) : Ing ReplyOutcome :=
  let senderEmail := extractEmail (inbound_from inboundEmail) in
  campaign ← lift (findCampaignByEmail senderEmail);
  match campaign with
  | None => mret NoCampaignFound
  | Some (id, c) =>
      let cleanedReply :=
        cleanReplyText (if Js.truthy (inbound_text inboundEmail)
                        then default "" (inbound_text inboundEmail)
                        else htmlToText (inbound_html inboundEmail)) in
      t ← lift now;
      updateCampaignWide id
        [Replied_at t; Narrow (Status "replied"); Last_reply_text cleanedReply];;
      t' ← lift now;
      result ← handleReply id cleanedReply
        {| meta_from := senderEmail; meta_subject := inbound_subject inboundEmail;
           receivedAt := t' |};
      lift (modify (with_stats countReplyProcessed));;
      lift (handleClassifiedReply E (id, c) result);;
      mret (ReplyProcessed id (classification result) (action result))
  end.

(** ** The requests the engine serves *)

Inductive Op :=
| Webhook (event : WebhookEvent)
| IncomingReply (inboundEmail : InboundEmail)
| Sweep
| PixelOpen (campaignId : string)
| ClickRedirect (campaignId targetUrl : string)
| Wait (ms : Z).

(** The store after a request; an error thrown ends the request. *)
Definition serve (s : Store) (op : Op) : Store :=
  match op with
  | Webhook event => execIng (processWebhook event) s
  | IncomingReply inboundEmail => execIng (processIncomingReply inboundEmail) s
  | Sweep => execIng (lift (processFollowUpQueue E)) s
  | PixelOpen campaignId => execIng (lift (trackOpen campaignId)) s
  | ClickRedirect campaignId targetUrl => execIng (lift (trackClick campaignId targetUrl)) s
  | Wait ms => execIng (lift (delay ms)) s
  end.

Definition serveAll (ops : list Op) (s : Store) : Store := fold_left serve ops s.

End Replies.

(** ** What every request keeps *)

(** The timestamps that take a campaign out of the sequence stay set. *)
Definition flagsKept (c c' : Campaign) : Prop :=
  (is_Some (replied_at c) → is_Some (replied_at c')) ∧
  (is_Some (bounced_at c) → is_Some (bounced_at c')) ∧
  (is_Some (unsubscribed_at c) → is_Some (unsubscribed_at c')).

(** From [w] to [w']: no campaign row appears or disappears, no row changes
    its recipient or loses one of the three timestamps, no address leaves
    the block list, and every provider call made is to an address that was
    not on the block list of [w]. *)
Definition keeps (w w' : World) : Prop :=
  (∀ id, outreach_campaigns w !! id = None → outreach_campaigns w' !! id = None) ∧
  (∀ id c, outreach_campaigns w !! id = Some c →
     ∃ c', outreach_campaigns w' !! id = Some c' ∧ flagsKept c c' ∧
           recipient_email c' = recipient_email c) ∧
  (∀ k, is_Some (email_blocklist w !! k) → is_Some (email_blocklist w' !! k)) ∧
  ∃ l, outbox w' = outbox w ++ l ∧
       Forall (λ e, email_blocklist w !! Js.toLowerCase (mail_to e.2) = None) l.

Definition Keeps {A} (m : Eff A) : Prop := ∀ w, keeps w (exec m w).

Definition KeepsIng {A} (m : Ing A) : Prop := ∀ s, keeps (world s) (world (execIng m s)).

(** A classifier that answers from the reply alone and touches nothing. *)
Definition answers (r : ClassificationResult)
  : string → string → ReplyMeta → Ing ClassificationResult :=
  λ _ _ _, mret r.

Definition storeOf (w : World) : Store := {| world := w; campaign_details := ∅ |}.

(** The provider calls made from [w] to [w']. *)
Definition callsSince (w w' : World) : list (option string * Email) :=
  drop (length (outbox w)) (outbox w').

(** Sample events. *)
Definition eventFor (type email : string) (bounce : option string) : WebhookEvent :=
  {| ev_type := type;
     ev_data := {| email_id := "e1"; to := email; link := None |};
     ev_bounce := bounce |}.

Definition replyFrom (sender : string) (text : option string) : InboundEmail :=
  {| inbound_from := sender; inbound_to := "maggie@maggieforbesstrategies.com";
     inbound_subject := "Re: Quick question"; inbound_text := text; inbound_html := None |}.

Definition interested : ClassificationResult :=
  {| classification := Some {| intent := "INTERESTED" |};
     response := Some "Happy to talk. Pick a time: [CALENDAR_LINK]";
     action := "send_response_and_monitor" |}.


(** ** Webhook events *)

(** The event types [processWebhook] knows. *)
Definition knownEvents : list string :=
  ["email.sent"; "email.delivered"; "email.opened"; "email.clicked"; "email.bounced";
   "email.complained"; "email.delivery_delayed"].

(** The campaign an event or a reply is attributed to. *)
Definition campaignFor (email : string) (s : Store) : option (string * Campaign) :=
  match eval (findCampaignByEmail email) (world s) with
  | Normal found => found
  | Throw _ => None
  end.

(** A lead whose second follow-up has just gone out. *)
Definition secondFollowUpOut : Campaign :=
  sample "lead@example.com" "follow_up_2" (Some 0) None None None (Some (240 * hour)).

Definition afterSecondFollowUp : World := worldOf [("c1", secondFollowUpOut)] [] (241 * hour).

(** ** Replies *)

(** The reply text [processIncomingReply] works on:
    [cleanReplyText(text || htmlToText(html))]. *)
Definition replyText (inboundEmail : InboundEmail) : string :=
  cleanReplyText (if Js.truthy (inbound_text inboundEmail)
                  then default "" (inbound_text inboundEmail)
                  else htmlToText (inbound_html inboundEmail)).

(** The actions of [handleClassifiedReply] that send an email. *)
Definition sendingActions : list string :=
  ["send_response_and_monitor"; "send_response_and_nurture"; "send_calendar_link"].

Definition asksForCalendar : ClassificationResult :=
  {| classification := Some {| intent := "READY_TO_BOOK" |};
     response := None; action := "send_calendar_link" |}.

Definition asksForRemoval : ClassificationResult :=
  {| classification := Some {| intent := "UNSUBSCRIBE" |};
     response := None; action := "remove_from_list" |}.

(** A classifier that fails. *)
Definition fails (e : JsError) : string → string → ReplyMeta → Ing ClassificationResult :=
  λ _ _ _ s, (Throw e, s).

(** ** Sweeps *)

(** The provider calls of [l] made for the campaign [id]. *)
Definition callsFor (id : string) (l : list (option string * Email))
  : list (option string * Email) :=
  filter (λ e, e.1 = Some id) l.

(** The follow-ups a row can still get from the default sequence: none when
    the follow-up query does not select it. *)
Definition remaining (c : Campaign) : nat :=
  if needsFollowUp c then 3 - getCurrentSequenceStep (status c) else 0.

(** ** Text *)

(** Characters other than [c]. *)
Definition isNot (c : ascii) : ascii → bool := λ x, negb (bool_decide (x = c)).

(** Text that holds neither markup nor entities: no [<] and no [&]. *)
Definition plainChar (c : ascii) : bool := isNot "<" c && isNot "&" c.

(** * Properties *)

(** ** Strings *)

Lemma app_cons (c : ascii) (a b : string) : String c a +:+ b = String c (a +:+ b).
Proof. reflexivity. Qed.

Lemma app_empty_r (a : string) : a +:+ "" = a.
Proof. induction a as [|c a IH]; [done|]. by rewrite app_cons, IH. Qed.

Lemma app_assoc_s (a b c : string) : (a +:+ b) +:+ c = a +:+ (b +:+ c).
Proof. induction a as [|x a IH]; [done|]. by rewrite !app_cons, IH. Qed.

Lemma length_app_s (a b : string) :
  String.length (a +:+ b) = (String.length a + String.length b)%nat.
Proof. induction a as [|x a IH]; [done|]. rewrite app_cons. cbn. by rewrite IH. Qed.

Lemma take_drop_s (n : nat) (s : string) : Js.take n s +:+ Js.drop n s = s.
Proof.
  revert s. induction n as [|n IH]; intros [|c s]; try done.
  cbn [Js.take Js.drop]. by rewrite app_cons, IH.
Qed.

Lemma drop_app_s (k : nat) (a b : string) :
  (k ≤ String.length a)%nat → Js.drop k (a +:+ b) = Js.drop k a +:+ b.
Proof.
  revert a. induction k as [|k IH]; intros a Hk.
  - by destruct a.
  - destruct a as [|c a]; [cbn in Hk; lia|].
    rewrite app_cons. cbn [Js.drop]. apply IH. cbn in Hk. lia.
Qed.

Lemma drop_all_s (k : nat) (a : string) :
  (String.length a ≤ k)%nat → Js.drop k a = "".
Proof.
  revert a. induction k as [|k IH]; intros [|c a] Hk; try done.
  - cbn in Hk. lia.
  - cbn [Js.drop]. apply IH. cbn in Hk. lia.
Qed.

Lemma drop_drop_s (j k : nat) (a : string) : Js.drop j (Js.drop k a) = Js.drop (k + j) a.
Proof.
  revert a. induction k as [|k IH]; intros a; [done|].
  destruct a as [|c a]; [by destruct j|]. cbn [Js.drop Nat.add]. apply IH.
Qed.

Lemma length_take_s (n : nat) (s : string) :
  (n ≤ String.length s)%nat → String.length (Js.take n s) = n.
Proof.
  revert s. induction n as [|n IH]; intros [|c s] Hn; try done.
  - cbn in Hn. lia.
  - cbn. rewrite IH; [done|]. cbn in Hn. lia.
Qed.


Lemma startsWith_ext (p s x : string) :
  Js.startsWith p s = true → Js.startsWith p (s +:+ x) = true.
Proof.
  revert s. induction p as [|c p IH]; intros s; [done|].
  destruct s as [|d s]; [done|]. rewrite app_cons. cbn.
  destruct (ascii_dec c d); [apply IH | done].
Qed.




Lemma trimStart_suffix (s : string) : ∃ a, s = a +:+ Js.trimStart s.
Proof.
  induction s as [|c s [a IH]]; [by exists ""|]. cbn.
  destruct (Ascii.is_space c).
  - exists (String c a). by rewrite app_cons, <- IH.
  - by exists "".
Qed.

Lemma trimEnd_prefix (s : string) : ∃ b, s = Js.trimEnd s +:+ b.
Proof.
  induction s as [|c s [b IH]]; [by exists ""|]. cbn.
  destruct (Js.trimEnd s) as [|d t] eqn:Ht.
  - destruct (Ascii.is_space c).
    + exists (String c s). done.
    + exists b. rewrite app_cons. by rewrite IH at 1.
  - exists b. rewrite app_cons. by rewrite IH at 1.
Qed.

(** ** The matcher *)

Import Regex.

Lemma test_at_true (r : regex) (s : string) : test_at r s = true ↔ ∃ x, x ∈ run r s.
Proof.
  unfold test_at. destruct (run r s) as [|y l].
  - split; [done | intros [x Hx]; by apply elem_of_nil in Hx].
  - split; [intros _; exists y; by left | done].
Qed.

Lemma elem_of_flat_map {A B} (f : A → list B) (l : list A) (y : B) :
  y ∈ flat_map f l ↔ ∃ x, x ∈ l ∧ y ∈ f x.
Proof.
  induction l as [|a l IH]; cbn.
  - split; [intros H; by apply elem_of_nil in H | intros (x & H & _); by apply elem_of_nil in H].
  - rewrite elem_of_app, IH. split.
    + intros [H|(x & H1 & H2)]; [exists a; split; [by left | done] | exists x; split; [by right | done]].
    + intros (x & H1 & H2). apply elem_of_cons in H1 as [->|H1]; [by left | right; eauto].
Qed.

Lemma star_loop_S (step : string → list string) (n : nat) (s : string) :
  star_loop step (S n) s =
  flat_map (λ s', if (String.length s' <? String.length s)%nat
                  then star_loop step n s' else []) (step s) ++ [s].
Proof. reflexivity. Qed.

(** The fuel of [run] is enough: more of it changes nothing. *)
Lemma star_loop_fuel (step : string → list string) (n m : nat) (s : string) :
  (String.length s < n)%nat → (String.length s < m)%nat →
  star_loop step n s = star_loop step m s.
Proof.
  revert m s. induction n as [|n IH]; intros m s Hn Hm; [lia|].
  destruct m as [|m]; [lia|]. rewrite !star_loop_S. f_equal.
  apply flat_map_ext. intros s'.
  destruct (String.length s' <? String.length s)%nat eqn:Hlt; [|done].
  apply Nat.ltb_lt in Hlt. apply IH; lia.
Qed.

Lemma star_loop_ext (step : string → list string) (x : string) :
  (∀ s rest, rest ∈ step s → rest +:+ x ∈ step (s +:+ x)) →
  ∀ (n m : nat) s rest, (n ≤ m)%nat →
    rest ∈ star_loop step n s → rest +:+ x ∈ star_loop step m (s +:+ x).
Proof.
  intros Hstep n. induction n as [|n IH]; intros m s rest Hnm Hin.
  - cbn in Hin. apply list_elem_of_singleton in Hin as ->.
    destruct m; cbn; [by left|]. apply elem_of_app. right. by left.
  - destruct m as [|m]; [lia|]. cbn [star_loop] in Hin |- *.
    apply elem_of_app in Hin as [Hin|Hin].
    + apply elem_of_flat_map in Hin as (s' & Hs' & Hin).
      destruct (String.length s' <? String.length s)%nat eqn:Hlt;
        [|by apply elem_of_nil in Hin].
      apply elem_of_app. left. apply elem_of_flat_map.
      exists (s' +:+ x). split; [by apply Hstep|].
      rewrite !length_app_s.
      apply Nat.ltb_lt in Hlt.
      rewrite (proj2 (Nat.ltb_lt _ _)) by lia.
      apply IH; [lia | done].
    + apply list_elem_of_singleton in Hin as ->. apply elem_of_app. right. by left.
Qed.

Lemma run_ext (r : regex) (x : string) :
  eos_free r = true →
  ∀ s rest, rest ∈ run r s → rest +:+ x ∈ run r (s +:+ x).
Proof.
  induction r as [p| |r1 IH1 r2 IH2|r1 IH1 r2 IH2|r1 IH1|]; cbn [eos_free run];
    intros Hf s rest Hin; try done.
  - destruct s as [|c s]; [by apply elem_of_nil in Hin|].
    rewrite app_cons. destruct (p c); [|by apply elem_of_nil in Hin].
    apply list_elem_of_singleton in Hin as ->. by left.
  - apply list_elem_of_singleton in Hin as ->. by left.
  - apply andb_true_iff in Hf as [Hf1 Hf2].
    apply elem_of_flat_map in Hin as (mid & Hmid & Hin).
    apply elem_of_flat_map. exists (mid +:+ x). split; [by apply IH1 | by apply IH2].
  - apply andb_true_iff in Hf as [Hf1 Hf2].
    apply elem_of_app in Hin as [Hin|Hin]; apply elem_of_app;
      [left; by apply IH1 | right; by apply IH2].
  - eapply (star_loop_ext (run r1) x (IH1 Hf)); [|exact Hin].
    rewrite length_app_s. lia.
Qed.

Lemma eos_free_ext_closed (r : regex) : eos_free r = true → ext_closed r.
Proof.
  intros Hf s x [rest Hin]%test_at_true. apply test_at_true.
  exists (rest +:+ x). by apply run_ext.
Qed.

Lemma drop_0 (s : string) : Js.drop 0 s = s.
Proof. reflexivity. Qed.

Lemma drop_empty (k : nat) : Js.drop k "" = "".
Proof. by destruct k. Qed.

(** What [search] returns: [-1] when the pattern matches nowhere, and
    otherwise the first position at which it matches. *)
Lemma search_from_cases (r : regex) (s : string) (i : Z) :
  (search_from r s i = -1 ∧ no_match r s) ∨
  ∃ k : nat, search_from r s i = i + Z.of_nat k ∧ (k ≤ String.length s)%nat ∧
             test_at r (Js.drop k s) = true ∧
             ∀ j : nat, (j < k)%nat → test_at r (Js.drop j s) = false.
Proof.
  revert i. induction s as [|c s IH]; intros i; cbn [search_from].
  - destruct (test_at r "") eqn:Ht.
    + right. exists 0%nat. repeat split; [lia | done | done | lia].
    + left. split; [done|]. intros k. by rewrite drop_empty.
  - destruct (test_at r (String c s)) eqn:Ht.
    + right. exists 0%nat. repeat split; [lia | cbn; lia | done | lia].
    + destruct (IH (i + 1)) as [[Hs Hno]|(k & Hs & Hk & Hat & Hbefore)].
      * left. split; [done|]. intros [|k]; [done | apply Hno].
      * right. exists (S k). repeat split; [lia | cbn; lia | done |].
        intros [|j] Hj; [done|]. apply Hbefore. lia.
Qed.

Lemma search_zero (r : regex) (s : string) : search r s = 0 ↔ test_at r s = true.
Proof.
  unfold search. split.
  - intros H0. destruct (search_from_cases r s 0) as [[Hs _]|(k & Hs & _ & Hat & _)]; [lia|].
    assert (k = 0%nat) as -> by lia. by destruct s.
  - intros Ht. destruct s; cbn; by rewrite Ht.
Qed.

Lemma search_none (r : regex) (s : string) : no_match r s → search r s = -1.
Proof.
  intros Hno. unfold search.
  destruct (search_from_cases r s 0) as [[Hs _]|(k & _ & _ & Hat & _)]; [done|].
  by rewrite Hno in Hat.
Qed.

Lemma no_match_prefix (r : regex) (a b : string) :
  ext_closed r → no_match r (a +:+ b) → no_match r a.
Proof.
  intros Hext Hno k. apply not_true_is_false. intros Ht.
  destruct (decide (k ≤ String.length a)%nat) as [Hk|Hk].
  - specialize (Hno k). rewrite drop_app_s in Hno by done.
    by rewrite (Hext _ b Ht) in Hno.
  - rewrite drop_all_s in Ht by lia.
    specialize (Hno (String.length a)). rewrite drop_app_s in Hno by done.
    rewrite (drop_all_s (String.length a) a) in Hno by done.
    by rewrite (Hext _ b Ht) in Hno.
Qed.

Lemma no_match_suffix (r : regex) (a b : string) :
  no_match r (a +:+ b) → no_match r b.
Proof.
  intros Hno k. specialize (Hno (String.length a + k)%nat).
  rewrite <- drop_drop_s in Hno. rewrite drop_app_s in Hno by done.
  rewrite (drop_all_s _ a) in Hno by done. exact Hno.
Qed.

Lemma no_match_trim (r : regex) (s : string) :
  ext_closed r → no_match r s → no_match r (Js.trim s).
Proof.
  intros Hext Hno. unfold Js.trim.
  destruct (trimStart_suffix s) as [a Ha]. rewrite Ha in Hno.
  apply no_match_suffix in Hno.
  destruct (trimEnd_prefix (Js.trimStart s)) as [b Hb]. rewrite Hb in Hno.
  by apply no_match_prefix in Hno.
Qed.

Lemma is_prefix_refl (t : string) : is_prefix t t.
Proof. exists "". by rewrite app_empty_r. Qed.

Lemma is_prefix_trans (a b c : string) : is_prefix a b → is_prefix b c → is_prefix a c.
Proof. intros [x ->] [y ->]. exists (x +:+ y). by rewrite app_assoc_s. Qed.

Lemma is_prefix_take (t a : string) :
  is_prefix a t → a = Js.take (String.length a) t.
Proof.
  intros [b ->]. induction a as [|c a IH]; [by destruct b|].
  rewrite app_cons. cbn. by rewrite <- IH.
Qed.

Lemma test_at_prefix (r : regex) (a t : string) :
  ext_closed r → is_prefix a t → test_at r t = false → test_at r a = false.
Proof.
  intros Hext [b ->] Hf. apply not_true_is_false. intros Ht.
  by rewrite (Hext _ b Ht) in Hf.
Qed.

(** ** The due-check of the sequencer *)

Lemma hours_elapsed (h n : Z) :
  Qle_bool (inject_Z h) (Qmake n (1000 * 60 * 60)) = true ↔ h * hour ≤ n.
Proof.
  unfold Qle_bool, inject_Z, hour. cbn [Qnum Qden].
  rewrite Z.leb_le. change (Z.pos (1000 * 60 * 60)) with 3600000. lia.
Qed.

Lemma shouldSendFollowUpAt_spec (E : Engine) (t : Z) (c : Campaign) :
  shouldSendFollowUpAt E t c = true ↔
  ∃ step, defaultSequence E !! getCurrentSequenceStep (status c) = Some step ∧
          incrementalDelay E (getCurrentSequenceStep (status c)) step * hour ≤ t - lastTouch c.
Proof.
  unfold shouldSendFollowUpAt, lastTouch.
  destruct (defaultSequence E !! getCurrentSequenceStep (status c)) as [step|] eqn:Hstep.
  - unfold incrementalDelay.
    destruct (getCurrentSequenceStep (status c)); rewrite hours_elapsed;
      (split; [intros H; exists step; split; [done|exact H] | intros (s & [= <-] & H); exact H]).
  - split; [done | intros (s & [=] & _)].
Qed.

Lemma dueSinceLaterTouch_agrees (E : Engine) (t : Z) (c : Campaign) :
  (∀ l, last_followup_at c = Some l → sentAtOf c ≤ l) →
  shouldSendFollowUpAt E t c = dueSinceLaterTouch E t c.
Proof.
  intros Hle. unfold shouldSendFollowUpAt, dueSinceLaterTouch, incrementalDelay.
  destruct (defaultSequence E !! getCurrentSequenceStep (status c)); [|done].
  destruct (last_followup_at c) as [l|]; [|done].
  rewrite Z.max_r by (apply Hle; done). done.
Qed.

(** C6, as stated, fails: the elapsed hours are not counted from the later
    of the two times. *)
Lemma C6_later_of_counterexample :
  needsFollowUp campaignSentAfterFollowUp = true ∧
  shouldSendFollowUpAt (defaultEngine alwaysAccepts) (145 * hour + 30000)
    campaignSentAfterFollowUp = true ∧
  dueSinceLaterTouch (defaultEngine alwaysAccepts) (145 * hour + 30000)
    campaignSentAfterFollowUp = false.
Proof. vm_compute. done. Qed.

(** C6, amended: the sequencer's due-check counts the elapsed hours from
    the last follow-up send time when one is recorded and otherwise from
    the original send time ([sent_at], or [created_at] when it is unset),
    which is the later of the two whenever the follow-up is not earlier
    than the send; it compares them with the incremental delay (the step's
    cumulative delay minus the previous step's, or the step's delay at
    index 0).  Under the default 72h/168h/336h sequence a campaign with
    status [sent] and [sent_at] 73 hours ago is due, and at 71 hours ago it
    is not. *)
Theorem C6_due_check (E : Engine) (t : Z) (c : Campaign) :
  (shouldSendFollowUpAt E t c = true ↔
   ∃ step, defaultSequence E !! getCurrentSequenceStep (status c) = Some step ∧
           incrementalDelay E (getCurrentSequenceStep (status c)) step * hour ≤ t - lastTouch c) ∧
  ((∀ l, last_followup_at c = Some l → sentAtOf c ≤ l) →
   shouldSendFollowUpAt E t c = dueSinceLaterTouch E t c) ∧
  (∀ r, status c = "sent" → last_followup_at c = None →
     (sent_at c = Some (t - 73 * hour) → shouldSendFollowUpAt (defaultEngine r) t c = true) ∧
     (sent_at c = Some (t - 71 * hour) → shouldSendFollowUpAt (defaultEngine r) t c = false)).
Proof.
  split; [apply shouldSendFollowUpAt_spec|].
  split; [apply dueSinceLaterTouch_agrees|].
  intros r Hst Hlast. split; intros Hsent.
  - apply shouldSendFollowUpAt_spec. rewrite Hst.
    change (getCurrentSequenceStep "sent") with 0%nat.
    eexists. split; [reflexivity|].
    unfold lastTouch, sentAtOf. rewrite Hlast, Hsent. cbn. unfold hour. lia.
  - apply not_true_is_false. intros (step & Hs & Hd)%shouldSendFollowUpAt_spec.
    revert Hs Hd. rewrite Hst.
    change (getCurrentSequenceStep "sent") with 0%nat.
    intros [= <-]. unfold lastTouch, sentAtOf. rewrite Hlast, Hsent.
    cbn. unfold hour. lia.
Qed.

Lemma C6_due_check_witness :
  shouldSendFollowUpAt (defaultEngine alwaysAccepts) (73 * hour) (sentCampaign 0) = true ∧
  shouldSendFollowUpAt (defaultEngine alwaysAccepts) (71 * hour) (sentCampaign 0) = false.
Proof.
  split.
  - apply (C6_due_check (defaultEngine alwaysAccepts) (73 * hour) (sentCampaign 0));
      reflexivity.
  - apply (C6_due_check (defaultEngine alwaysAccepts) (71 * hour) (sentCampaign 0));
      reflexivity.
Defined.

(** ** The analytics funnel *)




(** ** The shared delivery path *)

Lemma sendEmail_blocked (E : Engine) (to subject body : string) (cid : option string)
    (w : World) :
  blocked w to → sendEmail E to subject body cid w = (Normal Blocked, w).
Proof.
  intros Hb. unfold sendEmail, isEmailBlocked. eff_steps.
  rewrite bool_decide_eq_true_2 by exact Hb. reflexivity.
Qed.

Lemma onlySends_refl (cid : option string) (w : World) : onlySends cid w w.
Proof.
  repeat (split; [reflexivity|]). exists []. split; [by rewrite app_nil_r | constructor].
Qed.

(** [sendEmail] always returns an object; it touches the outbox and the
    statistics only, and counts an e-mail only when it returns [sent: true]. *)
Lemma sendEmail_returns (E : Engine) (to subject body : string) (cid : option string)
    (w : World) :
  ∃ result w', sendEmail E to subject body cid w = (Normal result, w') ∧
    onlySends cid w w' ∧
    (result = Blocked → w' = w) ∧
    ((∀ i, result ≠ Sent i) → stats w' = stats w).
Proof.
  unfold sendEmail, isEmailBlocked, resend_emails_send. eff_steps.
  destruct (bool_decide _).
  - exists Blocked, w. split; [reflexivity|]. split; [apply onlySends_refl|]. done.
  - destruct (resend E (outbox w) _) as [i|m|m];
      eexists _, _; (split; [reflexivity|]); (split; [|split]); try done.
    + repeat (split; [reflexivity|]). eexists. split; [reflexivity|]. by repeat constructor.
    + intros H. by destruct (H i).
    + repeat (split; [reflexivity|]). eexists. split; [reflexivity|]. by repeat constructor.
    + repeat (split; [reflexivity|]). eexists. split; [reflexivity|]. by repeat constructor.
Qed.

(** What [sendNextFollowUp] leaves when the sequence has a step for the
    campaign: the world after the send, with the row advanced and the
    conversation row appended. *)
Lemma sendNextFollowUp_step (E : Engine) (id : string) (c : Campaign) (step : Step)
    (w : World) :
  defaultSequence E !! getCurrentSequenceStep (status c) = Some step →
  let content := generateFollowUpEmail E c step in
  let w1 := exec (sendEmail E (recipient_email c) (content_subject content)
                    (content_body content) (Some id)) w in
  sendNextFollowUp E (id, c) w =
  (Normal tt,
   with_conversations (λ rows, rows ++ [followUpRow E id c step (clock w)])
     (with_campaigns
        (alter (patch [Status (step_type step); Last_followup_at (clock w);
                       Followup_count (or0 (followup_count c) + 1);
                       Updated_at (clock w)]) id) w1)).
Proof.
  intros Hstep content w1. unfold sendNextFollowUp. cbn [fst snd]. rewrite Hstep.
  unfold updateCampaign, storeOutgoingEmail. eff_steps.
  subst w1 content. unfold exec.
  destruct (sendEmail_returns E (recipient_email c)
              (content_subject (generateFollowUpEmail E c step))
              (content_body (generateFollowUpEmail E c step)) (Some id) w)
    as (result & w' & -> & (_ & _ & _ & _ & Hclock & _) & _).
  cbv beta iota zeta. cbn [snd clock with_campaigns]. rewrite Hclock. reflexivity.
Qed.

(** C3, as stated, fails on the sequencer's path: the blocked send makes no
    provider call, but a ConversationMessage row is appended. *)
Lemma C3_sequencer_counterexample :
  blocked blockedLead "lead@example.com" ∧
  selectFollowUps blockedLead = [("c1", sentCampaign 0)] ∧
  outbox (exec (processFollowUpQueue (defaultEngine alwaysAccepts)) blockedLead) = [] ∧
  email_conversations (exec (processFollowUpQueue (defaultEngine alwaysAccepts)) blockedLead)
    ≠ email_conversations blockedLead.
Proof.
  split; [eexists; vm_compute; reflexivity|].
  split; [vm_compute; reflexivity|].
  split; [vm_compute; reflexivity|].
  vm_compute. discriminate.
Qed.

(** C3, amended: for every recipient email on the block list, a send
    through the shared delivery path ([sendEmail]) returns a blocked result
    (not an error), makes no provider call and appends no
    ConversationMessage row; when the Follow-up Sequencer triggers the send
    ([sendNextFollowUp]) the result is blocked and no provider call is made
    either, and [sendNextFollowUp] then appends the ConversationMessage row
    of the step. *)
Theorem C3_blocklist_short_circuit (E : Engine) (w : World) :
  (∀ to subject body cid,
     blocked w to → sendEmail E to subject body cid w = (Normal Blocked, w)) ∧
  (∀ id c,
     blocked w (recipient_email c) →
     let w' := exec (sendNextFollowUp E (id, c)) w in
     outbox w' = outbox w ∧ stats w' = stats w ∧
     ∀ step, defaultSequence E !! getCurrentSequenceStep (status c) = Some step →
             email_conversations w' =
             email_conversations w ++ [followUpRow E id c step (clock w)]).
Proof.
  split; [intros; by apply sendEmail_blocked|].
  intros id c Hb w'.
  destruct (defaultSequence E !! getCurrentSequenceStep (status c)) as [step|] eqn:Hstep.
  - pose proof (sendNextFollowUp_step E id c step w Hstep) as Hrun.
    cbv zeta in Hrun. unfold exec in Hrun.
    rewrite sendEmail_blocked in Hrun by exact Hb. cbn [snd] in Hrun.
    subst w'. unfold exec. rewrite Hrun. cbn.
    repeat (split; [reflexivity|]). by intros ? [= <-].
  - subst w'. unfold exec, sendNextFollowUp. cbn [fst snd]. rewrite Hstep.
    repeat (split; [reflexivity|]). intros ? [=].
Qed.

Lemma C3_blocklist_short_circuit_witness :
  sendEmail (defaultEngine alwaysAccepts) "Lead@Example.com" "Hello" "Hi there" (Some "c1")
    blockedLead = (Normal Blocked, blockedLead) ∧
  outbox (exec (sendNextFollowUp (defaultEngine alwaysAccepts) ("c1", sentCampaign 0))
            blockedLead) = outbox blockedLead.
Proof.
  split.
  - apply (C3_blocklist_short_circuit (defaultEngine alwaysAccepts) blockedLead).
    eexists. vm_compute. reflexivity.
  - apply (C3_blocklist_short_circuit (defaultEngine alwaysAccepts) blockedLead).
    eexists. vm_compute. reflexivity.
Defined.

(** ** The follow-up step *)

(** C10: when [sendNextFollowUp] has a step to send, the row's status
    advance, its [followup_count] increment, its [last_followup_at] stamp and
    the appended ConversationMessage happen whatever [sendEmail] returned;
    after a blocked result no provider call was made and after a blocked or
    failed one no e-mail is counted as sent. *)
Theorem C10_follow_up_advances_unconditionally (E : Engine) (w : World) (id : string)
    (c row : Campaign) (step : Step) :
  defaultSequence E !! getCurrentSequenceStep (status c) = Some step →
  outreach_campaigns w !! id = Some row →
  let content := generateFollowUpEmail E c step in
  let w' := exec (sendNextFollowUp E (id, c)) w in
  ∃ result row',
    eval (sendEmail E (recipient_email c) (content_subject content) (content_body content)
            (Some id)) w = Normal result ∧
    outreach_campaigns w' !! id = Some row' ∧
    status row' = step_type step ∧
    followup_count row' = Some (or0 (followup_count c) + 1) ∧
    last_followup_at row' = Some (clock w) ∧
    email_conversations w' = email_conversations w ++ [followUpRow E id c step (clock w)] ∧
    (result = Blocked → outbox w' = outbox w) ∧
    ((∀ i, result ≠ Sent i) → emailsSent (stats w') = emailsSent (stats w)).
Proof.
  intros Hstep Hrow content w'.
  pose proof (sendNextFollowUp_step E id c step w Hstep) as Hrun. cbv zeta in Hrun.
  destruct (sendEmail_returns E (recipient_email c) (content_subject content)
              (content_body content) (Some id) w)
    as (result & w1 & Hsend & (Hcamp & _ & _ & Hconv & _ & _) & Hblocked & Hstats).
  subst content. unfold exec in Hrun. rewrite Hsend in Hrun. cbn [snd] in Hrun.
  subst w'. unfold exec, eval. rewrite Hrun, Hsend. cbn [fst snd].
  exists result. eexists. split; [reflexivity|].
  cbn [outreach_campaigns email_conversations outbox stats with_conversations with_campaigns].
  rewrite Hcamp, Hconv. rewrite lookup_alter_eq, Hrow. cbn [fmap option_fmap option_map].
  split; [reflexivity|]. repeat (split; [reflexivity|]).
  split.
  - intros Hb. by rewrite (Hblocked Hb).
  - intros Hn. by rewrite (Hstats Hn).
Qed.

Lemma C10_follow_up_advances_unconditionally_witness :
  ∃ row',
    outreach_campaigns
      (exec (sendNextFollowUp (defaultEngine alwaysRejects) ("c1", sentCampaign 0)) oneLead)
      !! "c1" = Some row' ∧
    status row' = "follow_up_1" ∧ followup_count row' = Some 1.
Proof.
  destruct (C10_follow_up_advances_unconditionally (defaultEngine alwaysRejects) oneLead "c1"
              (sentCampaign 0) (sentCampaign 0)
              {| step_delay := 72; step_type := "follow_up_1";
                 step_subject := "Quick follow-up" |} eq_refl eq_refl)
    as (result & row' & _ & Hrow & Hstatus & Hcount & _).
  exists row'. split; [exact Hrow|]. split; [exact Hstatus | exact Hcount].
Defined.

(** ** Reply dispatch *)

(** C2, as stated, fails: an action outside the set raises nothing. *)
Lemma C2_unknown_action_counterexample :
  (action unknownAction ∉ knownActions) ∧
  handleClassifiedReply (defaultEngine alwaysAccepts) ("c1", sentCampaign 0) unknownAction
    oneLead = (Normal tt, oneLead).
Proof.
  split; [|vm_compute; reflexivity].
  cbn. unfold knownActions. rewrite !not_elem_of_cons. repeat (split; [discriminate|]).
  apply not_elem_of_nil.
Qed.

(** C2, amended: for every classification result that carries a
    classification and whose action is outside the fixed set,
    [handleClassifiedReply] raises no error: it returns normally, sends
    nothing and leaves the state as it was. *)
Theorem C2_unknown_action_is_ignored (E : Engine) (campaign : string * Campaign)
    (r : ClassificationResult) (cls : Classification) (w : World) :
  classification r = Some cls →
  action r ∉ knownActions →
  handleClassifiedReply E campaign r w = (Normal tt, w).
Proof.
  intros Hcls Hnot. unfold handleClassifiedReply. rewrite Hcls. cbv zeta.
  unfold knownActions in Hnot. rewrite !not_elem_of_cons in Hnot.
  destruct Hnot as (? & ? & ? & ? & ? & ? & ? & _).
  rewrite decide_False by (by intros [?|?]).
  repeat (rewrite decide_False by done). reflexivity.
Qed.

(** The one error of the dispatch: a result without a classification. *)
Lemma handleClassifiedReply_without_classification (E : Engine)
    (campaign : string * Campaign) (r : ClassificationResult) (w : World) :
  classification r = None →
  ∃ e, handleClassifiedReply E campaign r w = (Throw e, w).
Proof. intros Hnone. unfold handleClassifiedReply. rewrite Hnone. by eexists. Qed.

Lemma C2_unknown_action_is_ignored_witness :
  handleClassifiedReply (defaultEngine alwaysAccepts) ("c1", sentCampaign 0) unknownAction
    oneLead = (Normal tt, oneLead).
Proof.
  apply (C2_unknown_action_is_ignored (defaultEngine alwaysAccepts) ("c1", sentCampaign 0)
           unknownAction {| intent := "UNKNOWN" |} oneLead eq_refl).
  cbn. unfold knownActions. rewrite !not_elem_of_cons. repeat (split; [discriminate|]).
  apply not_elem_of_nil.
Defined.

(** ** Opens and clicks *)

Lemma latest_elem (l : list (string * Campaign)) (best : option (string * Campaign))
    (y : string * Campaign) :
  fold_left latest l best = Some y → y ∈ l ∨ best = Some y.
Proof.
  revert best. induction l as [|row l IH]; intros best Hfold; [by right|].
  cbn in Hfold. destruct (IH _ Hfold) as [Hin|Hbest]; [left; by right|].
  unfold latest in Hbest. destruct best as [b|].
  - destruct (created_at b.2 <? created_at row.2); simplify_eq; [left; by left | by right].
  - simplify_eq. left. by left.
Qed.

(** The campaign found by email is a row of the table. *)
Lemma findCampaignByEmail_row (email id : string) (c : Campaign) (w : World) :
  eval (findCampaignByEmail email) w = Normal (Some (id, c)) →
  outreach_campaigns w !! id = Some c.
Proof.
  unfold eval, findCampaignByEmail. eff_steps. cbn [fst]. intros [= Hfold].
  destruct (latest_elem _ None _ Hfold) as [Hin|[=]].
  apply list_elem_of_filter in Hin as [_ Hin]. by apply elem_of_map_to_list in Hin.
Qed.

Lemma findCampaignByEmail_run (email : string) (w : World) :
  findCampaignByEmail email w = (eval (findCampaignByEmail email) w, w).
Proof. reflexivity. Qed.

Lemma trackOpen_row (id : string) (row : Campaign) (w : World) :
  outreach_campaigns w !! id = Some row →
  outreach_campaigns (exec (trackOpen id) w) =
  alter (patch (Open_count (or0 (open_count row) + 1)
                :: match opened_at row with
                   | None => [Opened_at (clock w)]
                   | Some _ => []
                   end ++ [Updated_at (clock w)])) id (outreach_campaigns w).
Proof.
  intros Hrow. unfold exec, trackOpen, updateCampaign, logEngagement. eff_steps.
  rewrite Hrow. reflexivity.
Qed.

Lemma trackClick_row (id url : string) (row : Campaign) (w : World) :
  outreach_campaigns w !! id = Some row →
  outreach_campaigns (exec (trackClick id url) w) =
  alter (patch (Click_count (or0 (click_count row) + 1)
                :: match clicked_at row with
                   | None => [Clicked_at (clock w)]
                   | Some _ => []
                   end ++ [Updated_at (clock w)])) id (outreach_campaigns w).
Proof.
  intros Hrow. unfold exec, trackClick, updateCampaign, logEngagement. eff_steps.
  rewrite Hrow. reflexivity.
Qed.

Lemma handleEmailOpened_row (data : EventData) (id : string) (c : Campaign) (w : World) :
  eval (findCampaignByEmail (to data)) w = Normal (Some (id, c)) →
  outreach_campaigns (exec (handleEmailOpened data) w) =
  alter (patch (match opened_at c with
                | None => [Opened_at (clock w); Open_count (or0 (open_count c) + 1)]
                | Some _ => [Open_count (or0 (open_count c) + 1)]
                end ++ [Updated_at (clock w)])) id (outreach_campaigns w).
Proof.
  intros Hfind. unfold exec, handleEmailOpened. unfold mbind at 1, Eff_bind at 1.
  rewrite findCampaignByEmail_run, Hfind.
  unfold updateCampaign, logEngagement. eff_steps.
  destruct (opened_at c); reflexivity.
Qed.

Lemma handleEmailClicked_row (data : EventData) (id : string) (c : Campaign) (w : World) :
  eval (findCampaignByEmail (to data)) w = Normal (Some (id, c)) →
  outreach_campaigns (exec (handleEmailClicked data) w) =
  alter (patch (if Js.truthy (link data) && Js.includes "calendly" (default "" (link data))
                then [Status "booking"; Calendly_clicked_at (clock w); Updated_at (clock w)]
                else []))
        id
        (alter (patch [Clicked_at (clock w); Click_count (or0 (click_count c) + 1);
                       Updated_at (clock w)]) id (outreach_campaigns w)).
Proof.
  intros Hfind. unfold exec, handleEmailClicked. unfold mbind at 1, Eff_bind at 1.
  rewrite findCampaignByEmail_run, Hfind.
  unfold updateCampaign, logEngagement. eff_steps.
  destruct (Js.truthy (link data) && Js.includes "calendly" (default "" (link data))).
  - reflexivity.
  - cbn [snd outreach_campaigns with_engagement with_campaigns].
    symmetry. apply map_eq. intros j. destruct (decide (id = j)) as [->|Hne].
    + rewrite lookup_alter_eq. by destruct (alter _ j _ !! j).
    + by rewrite lookup_alter_ne.
Qed.

(** [recordOpen] twice on a campaign never opened: [opened_at] is the time
    of the first call and [open_count] is 2. *)
Lemma trackOpen_twice (id : string) (row : Campaign) (w : World) (later : Z) :
  outreach_campaigns w !! id = Some row →
  opened_at row = None → or0 (open_count row) = 0 →
  let w1 := with_clock (λ _, later) (exec (trackOpen id) w) in
  ∃ row', outreach_campaigns (exec (trackOpen id) w1) !! id = Some row' ∧
          opened_at row' = Some (clock w) ∧ open_count row' = Some 2.
Proof.
  intros Hrow Hopened Hcount w1.
  assert (outreach_campaigns w1 = outreach_campaigns (exec (trackOpen id) w)) as Hw1
    by reflexivity.
  rewrite (trackOpen_row id row w Hrow) in Hw1.
  assert (outreach_campaigns w1 !! id =
          Some (patch [Open_count 1; Opened_at (clock w); Updated_at (clock w)] row)) as Hrow1.
  { rewrite Hw1, lookup_alter_eq, Hrow, Hopened, Hcount. reflexivity. }
  rewrite (trackOpen_row id _ w1 Hrow1), lookup_alter_eq, Hrow1.
  eexists. split; [reflexivity|]. split; reflexivity.
Qed.

(** Every recording adds one to its counter; the pixel, the click redirect
    and the webhook open keep a first-occurrence timestamp that is set. *)
Lemma trackOpen_records (id : string) (row : Campaign) (w : World) :
  outreach_campaigns w !! id = Some row →
  ∃ row', outreach_campaigns (exec (trackOpen id) w) !! id = Some row' ∧
          open_count row' = Some (or0 (open_count row) + 1) ∧
          opened_at row' = Some (default (clock w) (opened_at row)) ∧
          click_count row' = click_count row ∧ clicked_at row' = clicked_at row.
Proof.
  intros Hrow. rewrite (trackOpen_row id row w Hrow), lookup_alter_eq, Hrow.
  eexists. split; [reflexivity|]. destruct (opened_at row) eqn:Ho; cbn; rewrite ?Ho; done.
Qed.

Lemma handleEmailOpened_records (data : EventData) (id : string) (c : Campaign) (w : World) :
  eval (findCampaignByEmail (to data)) w = Normal (Some (id, c)) →
  ∃ row', outreach_campaigns (exec (handleEmailOpened data) w) !! id = Some row' ∧
          open_count row' = Some (or0 (open_count c) + 1) ∧
          opened_at row' = Some (default (clock w) (opened_at c)) ∧
          click_count row' = click_count c ∧ clicked_at row' = clicked_at c.
Proof.
  intros Hfind. rewrite (handleEmailOpened_row data id c w Hfind), lookup_alter_eq.
  rewrite (findCampaignByEmail_row _ _ _ _ Hfind).
  eexists. split; [reflexivity|]. destruct (opened_at c) eqn:Ho; cbn; rewrite ?Ho; done.
Qed.

(** The webhook click stamps [clicked_at] with the time of the event,
    whatever the column held. *)
Lemma handleEmailClicked_records (data : EventData) (id : string) (c : Campaign) (w : World) :
  eval (findCampaignByEmail (to data)) w = Normal (Some (id, c)) →
  ∃ row', outreach_campaigns (exec (handleEmailClicked data) w) !! id = Some row' ∧
          click_count row' = Some (or0 (click_count c) + 1) ∧
          clicked_at row' = Some (clock w) ∧
          open_count row' = open_count c ∧ opened_at row' = opened_at c.
Proof.
  intros Hfind. rewrite (handleEmailClicked_row data id c w Hfind), !lookup_alter_eq.
  rewrite (findCampaignByEmail_row _ _ _ _ Hfind).
  eexists. split; [reflexivity|].
  destruct (Js.truthy (link data) && Js.includes "calendly" (default "" (link data))); done.
Qed.

(** C4 fails on the webhook path: a second [email.clicked] event overwrites
    [clicked_at], which the tracking endpoint [trackClick] leaves in place. *)
Theorem C4_webhook_click_overwrites_clicked_at :
  clicked_at <$> outreach_campaigns clickedLead !! "c1" = Some (Some 1000) ∧
  clicked_at <$> outreach_campaigns
                   (exec (handleEmailClicked (clickEvent "https://example.com/pricing"))
                         clickedLead) !! "c1" = Some (Some 5000) ∧
  clicked_at <$> outreach_campaigns
                   (exec (trackClick "c1" "https://example.com/pricing") clickedLead) !! "c1"
    = Some (Some 1000).
Proof. vm_compute. done. Qed.

(** C5, as stated, fails: the click-redirect endpoint records the click on
    the scheduling link and leaves the status as it was. *)
Lemma C5_trackClick_counterexample :
  Js.includes "calendly" "https://calendly.com/maggieforbes/discovery" = true ∧
  ∃ row, outreach_campaigns
           (exec (trackClick "c1" "https://calendly.com/maggieforbes/discovery") oneLead)
           !! "c1" = Some row ∧
         status row = "sent" ∧ calendly_clicked_at row = None.
Proof.
  split; [vm_compute; reflexivity|].
  eexists. split; [vm_compute; reflexivity|]. split; reflexivity.
Qed.

(** C5, amended: for every provider webhook click event
    ([handleEmailClicked]) whose link contains the scheduling-link domain
    and whose recipient has a campaign, the campaign's status becomes
    [booking] and [calendly_clicked_at] is stamped; the click-redirect
    tracking endpoint ([trackClick]) increments [click_count] and sets
    [clicked_at] if it is unset, and changes neither the status nor
    [calendly_clicked_at]. *)
Theorem C5_hot_lead_by_webhook (w : World) :
  (∀ data id c url,
     eval (findCampaignByEmail (to data)) w = Normal (Some (id, c)) →
     link data = Some url → Js.includes "calendly" url = true →
     ∃ row', outreach_campaigns (exec (handleEmailClicked data) w) !! id = Some row' ∧
             status row' = "booking" ∧ calendly_clicked_at row' = Some (clock w)) ∧
  (∀ id url row,
     outreach_campaigns w !! id = Some row →
     ∃ row', outreach_campaigns (exec (trackClick id url) w) !! id = Some row' ∧
             status row' = status row ∧
             calendly_clicked_at row' = calendly_clicked_at row ∧
             click_count row' = Some (or0 (click_count row) + 1) ∧
             clicked_at row' = Some (default (clock w) (clicked_at row))).
Proof.
  split.
  - intros data id c url Hfind Hlink Hcal.
    rewrite (handleEmailClicked_row data id c w Hfind).
    rewrite Hlink. cbn [from_option Datatypes.id]. rewrite Hcal.
    assert (Js.truthy (Some url) = true) as -> by (by destruct url).
    cbn [andb]. rewrite !lookup_alter_eq.
    rewrite (findCampaignByEmail_row _ _ _ _ Hfind).
    eexists. split; [reflexivity|]. split; reflexivity.
  - intros id url row Hrow.
    rewrite (trackClick_row id url row w Hrow), lookup_alter_eq, Hrow.
    eexists. split; [reflexivity|]. destruct (clicked_at row) eqn:Hc; cbn; rewrite ?Hc; done.
Qed.

Lemma C5_hot_lead_by_webhook_witness :
  ∃ row', outreach_campaigns
            (exec (handleEmailClicked (clickEvent "https://calendly.com/maggieforbes/discovery"))
                  oneLead) !! "c1" = Some row' ∧
          status row' = "booking" ∧ calendly_clicked_at row' = Some (clock oneLead).
Proof.
  apply (proj1 (C5_hot_lead_by_webhook oneLead)
           (clickEvent "https://calendly.com/maggieforbes/discovery") "c1" (sentCampaign 0)
           "https://calendly.com/maggieforbes/discovery").
  - vm_compute. reflexivity.
  - reflexivity.
  - vm_compute. reflexivity.
Defined.

(** ** The sequencer's sweep *)

Lemma untouched_refl (id : string) (w : World) : untouched id w w.
Proof. by repeat split. Qed.

Lemma untouched_trans (id : string) (w1 w2 w3 : World) :
  untouched id w1 w2 → untouched id w2 w3 → untouched id w1 w3.
Proof.
  intros (H1 & H2 & H3) (H4 & H5 & H6).
  repeat split; [by rewrite H4 | by rewrite H5 | by rewrite H6].
Qed.

Lemma filter_other_campaign (id id' : string) (l : list (option string * Email)) :
  id ≠ id' → Forall (λ e, e.1 = Some id') l → filter (λ e, e.1 = Some id) l = [].
Proof.
  intros Hne Hall. induction Hall as [|e l He _ IH]; [done|].
  rewrite filter_cons_False; [exact IH|]. rewrite He. congruence.
Qed.

Lemma sendNextFollowUp_normal (E : Engine) (row : string * Campaign) (w : World) :
  ∃ w', sendNextFollowUp E row w = (Normal tt, w') ∧
        ∀ id, id ≠ row.1 → untouched id w w'.
Proof.
  destruct row as [id' c].
  destruct (defaultSequence E !! getCurrentSequenceStep (status c)) as [step|] eqn:Hstep.
  - eexists. split; [apply (sendNextFollowUp_step E id' c step w Hstep)|].
    intros id Hne. cbn [fst] in Hne. unfold exec.
    destruct (sendEmail_returns E (recipient_email c)
                (content_subject (generateFollowUpEmail E c step))
                (content_body (generateFollowUpEmail E c step)) (Some id') w)
      as (result & w1 & -> & (Hcamp & _ & _ & Hconv & _ & l & Hout & Hl) & _).
    cbn [snd]. unfold untouched, sentTo, conversationOf.
    cbn [outreach_campaigns outbox email_conversations with_conversations with_campaigns].
    rewrite lookup_alter_ne by done. rewrite Hcamp, Hconv, Hout, !filter_app.
    rewrite (filter_other_campaign id id' l Hne Hl), app_nil_r.
    rewrite filter_cons_False by (cbn; congruence).
    by rewrite filter_nil, app_nil_r.
  - exists w. split; [|intros; apply untouched_refl].
    unfold sendNextFollowUp. cbn [snd]. by rewrite Hstep.
Qed.

Lemma followUpLoop_untouched (E : Engine) (id : string) (l : list (string * Campaign))
    (n : Z) (w : World) :
  id ∉ l.*1 →
  ∃ n' w', followUpLoop E l n w = (Normal n', w') ∧ untouched id w w'.
Proof.
  revert n w. induction l as [|row l IH]; intros n w Hid.
  - exists n, w. split; [reflexivity | apply untouched_refl].
  - rewrite fmap_cons, not_elem_of_cons in Hid. destruct Hid as [Hne Hid].
    cbn [followUpLoop]. unfold shouldSendFollowUp. eff_steps.
    destruct (shouldSendFollowUpAt E (clock w) row.2).
    + destruct (sendNextFollowUp_normal E row w) as (w1 & -> & Hw1).
      destruct (IH (n + 1) (with_clock (λ t, t + 10000) w1) Hid) as (n' & w' & -> & Hw').
      exists n', w'. split; [reflexivity|].
      eapply untouched_trans; [apply (Hw1 id Hne)|]. exact Hw'.
    + apply (IH n w Hid).
Qed.

Lemma flagged_not_selected (id : string) (c : Campaign) (w : World) :
  outreach_campaigns w !! id = Some c → flagged c → id ∉ (selectFollowUps w).*1.
Proof.
  intros Hrow Hflag Hin.
  apply list_elem_of_fmap in Hin as ([id' c'] & -> & Hin).
  apply list_elem_of_filter in Hin as [Hneeds Hin].
  apply elem_of_map_to_list in Hin. cbn [fst snd] in *.
  rewrite Hrow in Hin. injection Hin as <-.
  unfold needsFollowUp in Hneeds.
  apply Is_true_true in Hneeds. rewrite !andb_true_iff, !bool_decide_eq_true in Hneeds.
  destruct Hneeds as (((_ & Hr) & Hb) & Hu).
  destruct Hflag as [[? H]|[[? H]|[? H]]]; congruence.
Qed.

Lemma processFollowUpQueue_untouched (E : Engine) (id : string) (c : Campaign) (w : World) :
  outreach_campaigns w !! id = Some c → flagged c →
  untouched id w (exec (processFollowUpQueue E) w).
Proof.
  intros Hrow Hflag. unfold exec, processFollowUpQueue. eff_steps.
  destruct (followUpLoop_untouched E id (selectFollowUps w) 0 w
              (flagged_not_selected id c w Hrow Hflag)) as (n & w' & -> & Hw').
  exact Hw'.
Qed.

Lemma sweeps_untouched (E : Engine) (id : string) (c : Campaign) (times : list Z)
    (w : World) :
  outreach_campaigns w !! id = Some c → flagged c →
  untouched id w (sweeps E times w).
Proof.
  revert w. induction times as [|t times IH]; intros w Hrow Hflag;
    [apply untouched_refl|].
  unfold sweeps. cbn [fold_left]. fold (sweeps E times).
  pose proof (processFollowUpQueue_untouched E id c (with_clock (λ _, t) w) Hrow Hflag)
    as Hstep.
  eapply untouched_trans; [exact Hstep|].
  apply IH; [|exact Hflag]. destruct Hstep as (-> & _). exact Hrow.
Qed.

(** C1: a campaign with any of [replied_at], [bounced_at] or
    [unsubscribed_at] set is not selected by a run of
    [processFollowUpQueue], and however many sweeps have run (at the times
    [times]) no provider call was made for it, no conversation row was
    added for it and its row is as it was; so the next sweep does not
    select it either. *)
Theorem C1_flagged_campaign_never_followed_up (E : Engine) (w : World) (id : string)
    (c : Campaign) (times : list Z) :
  outreach_campaigns w !! id = Some c →
  flagged c →
  let w' := sweeps E times w in
  (id ∉ (selectFollowUps w').*1) ∧
  sentTo id w' = sentTo id w ∧
  conversationOf id w' = conversationOf id w ∧
  outreach_campaigns w' !! id = Some c.
Proof.
  intros Hrow Hflag w'.
  destruct (sweeps_untouched E id c times w Hrow Hflag) as (Hsame & Hsent & Hconv).
  fold w' in Hsame, Hsent, Hconv. rewrite Hrow in Hsame.
  split; [by apply (flagged_not_selected id c)|]. done.
Qed.

(** In the same sweeps a lead that did not reply gets its two follow-ups. *)
Example sweeps_follow_up_the_other_lead :
  length (sentTo "c2" (sweeps (defaultEngine alwaysAccepts)
                         [80 * hour; 81 * hour; 300 * hour] repliedLead)) = 2%nat ∧
  status <$> outreach_campaigns
               (sweeps (defaultEngine alwaysAccepts) [80 * hour; 81 * hour; 300 * hour]
                  repliedLead) !! "c2" = Some "follow_up_2".
Proof. vm_compute. done. Qed.

Lemma C1_flagged_campaign_never_followed_up_witness :
  sentTo "c1" (sweeps (defaultEngine alwaysAccepts) [80 * hour; 81 * hour; 300 * hour]
                 repliedLead) = [].
Proof.
  apply (C1_flagged_campaign_never_followed_up (defaultEngine alwaysAccepts) repliedLead "c1"
           (sample "lead@example.com" "sent" (Some 0) None None (Some 1000) None)
           [80 * hour; 81 * hour; 300 * hour]).
  - vm_compute. reflexivity.
  - left. eexists. reflexivity.
Defined.

(** ** Reply cleaning *)

(** One turn of the loop keeps a prefix; a pattern that does not match at
    the very start matches nowhere in what is kept. *)
Lemma cut_spec (t : string) (p : regex) :
  ext_closed p →
  is_prefix (cut t p) t ∧ (test_at p t = false → no_match p (cut t p)).
Proof.
  intros Hext. unfold cut, search.
  destruct (search_from_cases p t 0) as [[-> Hno]|(k & -> & Hk & Hat & Hbefore)].
  - cbn. split; [apply is_prefix_refl | done].
  - destruct k as [|k].
    + cbn. split; [apply is_prefix_refl|]. intros Hf. cbn in Hat. by rewrite Hf in Hat.
    + rewrite (proj2 (Z.ltb_lt _ _)) by lia.
      replace (Z.to_nat (0 + Z.of_nat (S k))) with (S k) by lia.
      split; [exists (Js.drop (S k) t); by rewrite take_drop_s|].
      intros _. rewrite <- (take_drop_s (S k) t) in Hbefore.
      intros j. apply not_true_is_false. intros Ht.
      destruct (decide (j < S k)%nat) as [Hj|Hj].
      * specialize (Hbefore j Hj).
        rewrite drop_app_s in Hbefore by (rewrite length_take_s; lia).
        by rewrite (Hext _ _ Ht) in Hbefore.
      * rewrite drop_all_s in Ht by (rewrite length_take_s; lia).
        specialize (Hbefore 0%nat ltac:(lia)). rewrite drop_0 in Hbefore.
        assert (test_at p (Js.take (S k) t +:+ Js.drop (S k) t) = true) as Ht'
          by exact (Hext "" _ Ht).
        by rewrite Ht' in Hbefore.
Qed.

Lemma fold_cut_spec (ps : list regex) (t : string) :
  Forall ext_closed ps →
  is_prefix (fold_left cut ps t) t ∧
  ∀ p, p ∈ ps → test_at p t = false → no_match p (fold_left cut ps t).
Proof.
  revert t. induction ps as [|q ps IH]; intros t Hall.
  - split; [apply is_prefix_refl|]. intros p Hp. by apply elem_of_nil in Hp.
  - apply Forall_cons in Hall as [Hq Hall]. cbn [fold_left].
    destruct (cut_spec t q Hq) as [Hpre Hcut].
    destruct (IH (cut t q) Hall) as [Hpre' Hrest].
    split; [by eapply is_prefix_trans|].
    intros p Hp Hf. apply elem_of_cons in Hp as [->|Hp].
    + destruct Hpre' as [b Hb]. specialize (Hcut Hf). rewrite Hb in Hcut.
      by apply no_match_prefix in Hcut.
    + apply Hrest; [done|].
      rewrite Forall_forall in Hall.
      by apply (test_at_prefix p _ t (Hall p Hp)).
Qed.

Lemma run_lit (p s : string) :
  run (lit p) s = if Js.startsWith p s then [Js.drop (String.length p) s] else [].
Proof.
  revert s. induction p as [|c p IH]; intros s; [done|].
  destruct s as [|d s]; [done|]. cbn [lit run chr Js.startsWith String.length Js.drop].
  destruct (ascii_dec c d) as [->|Hne].
  - rewrite bool_decide_eq_true_2 by done. cbn [flat_map]. by rewrite IH, app_nil_r.
  - rewrite bool_decide_eq_false_2 by congruence. done.
Qed.

Lemma star_dot_all_end (s : string) (n : nat) :
  (String.length s < n)%nat → "" ∈ star_loop (run dot_all) n s.
Proof.
  revert n. induction s as [|c s IH]; intros n Hn; (destruct n as [|n]; [lia|]).
  - cbn. by left.
  - cbn [star_loop run dot_all flat_map]. rewrite app_nil_r.
    rewrite (proj2 (Nat.ltb_lt _ _)) by (cbn; lia).
    apply elem_of_app. left. apply IH. cbn in Hn. lia.
Qed.

(** The last pattern, which ends in [$], matches where its literal does. *)
Lemma quote_after_blank_line (s : string) :
  test_at (seq [lit (nl +:+ nl +:+ ">"); Star dot_all; Eos]) s
  = Js.startsWith (nl +:+ nl +:+ ">") s.
Proof.
  unfold test_at. cbn [seq run]. rewrite run_lit.
  destruct (Js.startsWith _ s); [|done]. cbn [flat_map]. rewrite app_nil_r.
  set (d := Js.drop _ s).
  assert ("" ∈ flat_map (run Eos) (star_loop (run dot_all) (S (String.length d)) d)) as Hin.
  { apply elem_of_flat_map. exists "". split; [apply star_dot_all_end; lia | by left]. }
  destruct (flat_map _ _); [by apply elem_of_nil in Hin | done].
Qed.

Lemma patterns_ext_closed : Forall ext_closed patterns.
Proof.
  unfold patterns. repeat apply Forall_cons_2; try (by apply eos_free_ext_closed).
  - intros s x. rewrite !quote_after_blank_line. apply startsWith_ext.
  - constructor.
Qed.

Lemma fold_cut_unmatched (ps : list regex) (t : string) :
  (∀ p, p ∈ ps → search p t ≤ 0) → fold_left cut ps t = t.
Proof.
  induction ps as [|q ps IH]; intros Hall; [done|]. cbn [fold_left].
  assert (cut t q = t) as ->.
  { unfold cut. rewrite (proj2 (Z.ltb_ge _ _)); [done|]. apply Hall. by left. }
  apply IH. intros p Hp. apply Hall. by right.
Qed.

(** C7, as stated, fails: a marker at the very start of the reply is a
    boundary, and nothing is discarded. *)
Lemma C7_leading_marker_counterexample :
  earliestBoundary replyBelowQuote = Some 0 ∧
  cleanAtEarliestBoundary replyBelowQuote = "" ∧
  cleanReplyText replyBelowQuote = replyBelowQuote.
Proof. vm_compute. done. Qed.

(** C7, amended: the reply-cleaning function applies the fixed patterns in
    order (case-insensitive [On ... wrote:] on one line, a
    [From:/Sent:/To:/Subject:] header block, a run of five or more
    underscores or hyphens, a [>]), each to the text left by the patterns
    before it, and cuts the text at a pattern's first match only when that
    match starts after position 0.  The result is the trimmed text of a
    prefix of the input, in which no pattern matches that does not match
    at the very start of the input; a text whose markers all match at
    position 0 or nowhere is only trimmed.  Cleaning
    ["Interesting!\n\nOn Mon, Jan 1 wrote:\n> original message"] yields
    exactly ["Interesting!"]. *)
Theorem C7_cleanReplyText (text : string) :
  (∃ k, cleanReplyText text = Js.trim (Js.take k text)) ∧
  (∀ p, p ∈ patterns → search p text ≠ 0 → search p (cleanReplyText text) = -1) ∧
  ((∀ p, p ∈ patterns → search p text ≤ 0) → cleanReplyText text = Js.trim text) ∧
  cleanReplyText quotedReply = "Interesting!".
Proof.
  pose proof (fold_cut_spec patterns text patterns_ext_closed) as [Hpre Hno].
  assert (cleanReplyText text = Js.trim (fold_left cut patterns text)) as Hclean.
  { unfold cleanReplyText. destruct (decide (text = "")) as [->|]; [by vm_compute | done]. }
  split; [|split; [|split]].
  - exists (String.length (fold_left cut patterns text)).
    by rewrite Hclean, <- (is_prefix_take text _ Hpre).
  - intros p Hp H0. rewrite Hclean.
    assert (ext_closed p) as Hext
      by (by apply (proj1 (Forall_forall _ _) patterns_ext_closed)).
    apply search_none, no_match_trim; [done|]. apply Hno; [done|].
    apply not_true_is_false. by rewrite <- search_zero.
  - intros Hall. by rewrite Hclean, fold_cut_unmatched.
  - vm_compute. reflexivity.
Qed.

Lemma C7_cleanReplyText_witness :
  search (Seq (at_least 1 (chr ">")) (Star dot)) (cleanReplyText quotedReply) = -1.
Proof.
  apply (C7_cleanReplyText quotedReply).
  - unfold patterns. do 4 right. left.
  - vm_compute. discriminate.
Defined.

(** ** Link instrumentation *)








Lemma run_seq (a b : regex) (s : string) : run (Seq a b) s = flat_map (run b) (run a s).
Proof. reflexivity. Qed.

Lemma run_chr (p : ascii → bool) (c : ascii) (s : string) :
  run (Chr p) (String c s) = if p c then [s] else [].
Proof. reflexivity. Qed.

Lemma run_star (r : regex) (s : string) :
  run (Star r) s = star_loop (run r) (S (String.length s)) s.
Proof. reflexivity. Qed.












Lemma take_app_length (u rest : string) :
  Js.take (String.length (u +:+ rest) - String.length rest) (u +:+ rest) = u.
Proof.
  rewrite length_app_s. replace (_ + _ - _)%nat with (String.length u) by lia.
  induction u as [|c u IH]; [by destruct rest|]. rewrite app_cons. cbn. by rewrite IH.
Qed.




(** * Properties of the rest of the engine *)

(** ** What every request keeps *)

Lemma flagsKept_refl (c : Campaign) : flagsKept c c.
Proof. by repeat split. Qed.

Lemma flagsKept_trans (c1 c2 c3 : Campaign) :
  flagsKept c1 c2 → flagsKept c2 c3 → flagsKept c1 c3.
Proof. intros (? & ? & ?) (? & ? & ?). repeat split; auto. Qed.

Lemma keeps_refl (w : World) : keeps w w.
Proof.
  split; [done|]. split; [|split; [done|]].
  - intros id c Hc. exists c. split; [done|]. split; [apply flagsKept_refl | done].
  - exists []. split; [by rewrite app_nil_r | constructor].
Qed.

Lemma keeps_trans (w1 w2 w3 : World) : keeps w1 w2 → keeps w2 w3 → keeps w1 w3.
Proof.
  intros (Hn & Hs & Hb & l & Hl & Hall) (Hn' & Hs' & Hb' & l' & Hl' & Hall').
  split; [auto|]. split; [|split; [auto|]].
  - intros id c Hc. destruct (Hs id c Hc) as (c2 & Hc2 & Hf & Hr).
    destruct (Hs' id c2 Hc2) as (c3 & Hc3 & Hf' & Hr').
    exists c3. split; [done|]. split; [by eapply flagsKept_trans | congruence].
  - exists (l ++ l'). split; [by rewrite Hl', Hl, app_assoc|].
    apply Forall_app. split; [done|].
    eapply Forall_impl; [exact Hall'|]. intros e He. cbv beta in He |- *.
    destruct (email_blocklist w1 !! Js.toLowerCase (mail_to e.2)) as [b|] eqn:Hw1; [|done].
    destruct (Hb (Js.toLowerCase (mail_to e.2))) as [b' Hb2]; [by eexists|]. congruence.
Qed.

(** A change outside the campaigns, the block list and the outbox. *)
Lemma keeps_frame (w w' : World) :
  outreach_campaigns w' = outreach_campaigns w →
  email_blocklist w' = email_blocklist w →
  outbox w' = outbox w →
  keeps w w'.
Proof.
  intros Hc Hb Ho. unfold keeps. rewrite Hc, Hb, Ho. apply keeps_refl.
Qed.

Lemma keeps_alter (f : Campaign → Campaign) (id : string) (w : World) :
  (∀ c, flagsKept c (f c) ∧ recipient_email (f c) = recipient_email c) →
  keeps w (with_campaigns (alter f id) w).
Proof.
  intros Hf. split; [|split; [|split; [done|]]]; cbn.
  - intros j Hj. destruct (decide (id = j)) as [->|Hne].
    + by rewrite lookup_alter_eq, Hj.
    + by rewrite lookup_alter_ne.
  - intros j c Hc. destruct (decide (id = j)) as [->|Hne].
    + rewrite lookup_alter_eq, Hc. exists (f c). split; [done|]. apply Hf.
    + rewrite lookup_alter_ne by done. exists c.
      split; [done|]. split; [apply flagsKept_refl | done].
  - exists []. split; [by rewrite app_nil_r | constructor].
Qed.

Lemma keeps_block (k : string) (row : BlocklistRow) (w : World) :
  keeps w (with_blocklist <[k := row]> w).
Proof.
  split; [done|]. split; [|split]; cbn.
  - intros id c Hc. exists c. split; [done|]. split; [apply flagsKept_refl | done].
  - intros j Hj. destruct (decide (k = j)) as [->|Hne].
    + rewrite lookup_insert_eq. by eexists.
    + by rewrite lookup_insert_ne.
  - exists []. split; [by rewrite app_nil_r | constructor].
Qed.

Lemma assign_keeps (c : Campaign) (a : Assignment) :
  replied_at (assign c a) = replied_at c ∧ bounced_at (assign c a) = bounced_at c ∧
  unsubscribed_at (assign c a) = unsubscribed_at c ∧
  recipient_email (assign c a) = recipient_email c.
Proof. done. Qed.

Lemma patch_keeps (l : list Assignment) (c : Campaign) :
  flagsKept c (patch l c) ∧ recipient_email (patch l c) = recipient_email c.
Proof.
  unfold patch. revert c. induction l as [|a l IH]; intros c; cbn [fold_left].
  - split; [apply flagsKept_refl | done].
  - destruct (IH (assign c a)) as [Hf Hr]. split; [|exact Hr].
    eapply flagsKept_trans; [|exact Hf]. by repeat split.
Qed.

Lemma assignWide_keeps (c : Campaign) (a : Column) :
  flagsKept c (assignWide c a) ∧ recipient_email (assignWide c a) = recipient_email c.
Proof.
  split; [|by destruct a].
  repeat split; destruct a; cbn; try done; intros _; by eexists.
Qed.

Lemma patchWide_keeps (l : list Column) (c : Campaign) :
  flagsKept c (fold_left assignWide l c) ∧
  recipient_email (fold_left assignWide l c) = recipient_email c.
Proof.
  revert c. induction l as [|a l IH]; intros c; cbn [fold_left].
  - split; [apply flagsKept_refl | done].
  - destruct (IH (assignWide c a)) as [Hf Hr].
    destruct (assignWide_keeps c a) as [Hf' Hr'].
    split; [by eapply flagsKept_trans | congruence].
Qed.

(** *** Computations on the world *)

Lemma Keeps_ret {A} (a : A) : Keeps (mret a).
Proof. intros w. apply keeps_refl. Qed.

Lemma Keeps_throw {A} (e : JsError) : Keeps (throw (A := A) e).
Proof. intros w. apply keeps_refl. Qed.

Lemma Keeps_gets {A} (f : World → A) : Keeps (gets f).
Proof. intros w. apply keeps_refl. Qed.

Lemma Keeps_bind {A B} (m : Eff A) (k : A → Eff B) :
  Keeps m → (∀ a, Keeps (k a)) → Keeps (m ≫= k).
Proof.
  intros Hm Hk w. specialize (Hm w). unfold exec in *. eff_steps.
  destruct (m w) as [[a|e] w1]; cbn [snd] in *; [|exact Hm].
  eapply keeps_trans; [exact Hm | apply Hk].
Qed.

Lemma Keeps_modify (f : World → World) : (∀ w, keeps w (f w)) → Keeps (modify f).
Proof. intros Hf w. apply Hf. Qed.

Ltac keeps_frame_tac := apply Keeps_modify; intros ?; by apply keeps_frame.

Lemma Keeps_updateCampaign (id : string) (updates : list Assignment) :
  Keeps (updateCampaign id updates).
Proof.
  apply Keeps_bind; [apply Keeps_gets|]. intros t.
  apply Keeps_modify. intros w. apply keeps_alter. intros c. apply patch_keeps.
Qed.

Lemma Keeps_logEngagement (id type : string) (metadata : list (string * option string)) :
  Keeps (logEngagement id type metadata).
Proof. apply Keeps_bind; [apply Keeps_gets|]. intros t. keeps_frame_tac. Qed.

Lemma Keeps_storeOutgoingEmail (id : string) (email : Content) (type : string) :
  Keeps (storeOutgoingEmail id email type).
Proof. apply Keeps_bind; [apply Keeps_gets|]. intros t. keeps_frame_tac. Qed.

Lemma Keeps_addToUnsubscribeList (email reason : string) :
  Keeps (addToUnsubscribeList email reason).
Proof.
  apply Keeps_bind; [apply Keeps_gets|]. intros t.
  apply Keeps_modify. intros w. apply keeps_block.
Qed.

Lemma Keeps_addToBounceList (email : string) (reason : option string) :
  Keeps (addToBounceList email reason).
Proof.
  apply Keeps_bind; [apply Keeps_gets|]. intros t.
  apply Keeps_modify. intros w. apply keeps_block.
Qed.

Lemma Keeps_delay (ms : Z) : Keeps (delay ms).
Proof. keeps_frame_tac. Qed.

Lemma Keeps_sendEmail (E : Engine) (to subject body : string) (cid : option string) :
  Keeps (sendEmail E to subject body cid).
Proof.
  intros w. unfold exec, sendEmail, isEmailBlocked, resend_emails_send. eff_steps.
  destruct (bool_decide _) eqn:Hb; [apply keeps_refl|].
  apply bool_decide_eq_false in Hb.
  assert (email_blocklist w !! Js.toLowerCase to = None) as Hnone.
  { destruct (email_blocklist w !! Js.toLowerCase to) eqn:Hl; [|done].
    destruct Hb. by eexists. }
  assert (keeps w (with_outbox (λ l, l ++ [(cid, sendRequest E to subject body cid)]) w))
    as Hout.
  { split; [done|]. split; [|split; [done|]]; cbn.
    - intros id c Hc. exists c. split; [done|]. split; [apply flagsKept_refl | done].
    - eexists. split; [reflexivity|]. by repeat constructor. }
  destruct (resend E (outbox w) _) as [i|m|m]; cbn [snd]; exact Hout.
Qed.

Lemma Keeps_now : Keeps now.
Proof. apply Keeps_gets. Qed.

Lemma Keeps_findCampaignByEmail (email : string) : Keeps (findCampaignByEmail email).
Proof. intros w. apply keeps_refl. Qed.

Ltac keeps_step :=
  lazymatch goal with
  | |- Keeps (mret _) => apply Keeps_ret
  | |- Keeps now => apply Keeps_now
  | |- Keeps (gets _) => apply Keeps_gets
  | |- Keeps (throw _) => apply Keeps_throw
  | |- Keeps (updateCampaign _ _) => apply Keeps_updateCampaign
  | |- Keeps (logEngagement _ _ _) => apply Keeps_logEngagement
  | |- Keeps (storeOutgoingEmail _ _ _) => apply Keeps_storeOutgoingEmail
  | |- Keeps (addToUnsubscribeList _ _) => apply Keeps_addToUnsubscribeList
  | |- Keeps (addToBounceList _ _) => apply Keeps_addToBounceList
  | |- Keeps (delay _) => apply Keeps_delay
  | |- Keeps (sendEmail _ _ _ _ _) => apply Keeps_sendEmail
  | |- Keeps (findCampaignByEmail _) => apply Keeps_findCampaignByEmail
  | |- Keeps (modify _) => keeps_frame_tac
  | |- Keeps (mbind _ _) => apply Keeps_bind; [|intros ?]
  | |- Keeps (match ?x with _ => _ end) => destruct x
  | |- Keeps (if ?b then _ else _) => destruct b
  | |- Keeps (let '(_, _) := ?x in _) => destruct x
  end.

Ltac keeps_go := repeat keeps_step.

Lemma Keeps_sendNextFollowUp (E : Engine) (campaign : string * Campaign) :
  Keeps (sendNextFollowUp E campaign).
Proof. unfold sendNextFollowUp. keeps_go. Qed.

Lemma Keeps_followUpLoop (E : Engine) (campaigns : list (string * Campaign)) (n : Z) :
  Keeps (followUpLoop E campaigns n).
Proof.
  revert n. induction campaigns as [|campaign rest IH]; intros n; cbn [followUpLoop].
  - keeps_go.
  - unfold shouldSendFollowUp. keeps_go; [apply Keeps_sendNextFollowUp | apply IH..].
Qed.

Lemma Keeps_processFollowUpQueue (E : Engine) : Keeps (processFollowUpQueue E).
Proof. unfold processFollowUpQueue. keeps_go. apply Keeps_followUpLoop. Qed.

Lemma Keeps_handleClassifiedReply (E : Engine) (campaign : string * Campaign)
    (r : ClassificationResult) :
  Keeps (handleClassifiedReply E campaign r).
Proof.
  unfold handleClassifiedReply, sendFollowUpEmail, sendBookingEmail, scheduleRetry,
    flagForReview.
  keeps_go.
Qed.

Lemma Keeps_trackOpen (id : string) : Keeps (trackOpen id).
Proof. unfold trackOpen. keeps_go. Qed.

Lemma Keeps_trackClick (id url : string) : Keeps (trackClick id url).
Proof. unfold trackClick. keeps_go. Qed.

Lemma Keeps_handleEmailOpened (data : EventData) : Keeps (handleEmailOpened data).
Proof. unfold handleEmailOpened. keeps_go. Qed.

Lemma Keeps_handleEmailClicked (data : EventData) : Keeps (handleEmailClicked data).
Proof. unfold handleEmailClicked. keeps_go. Qed.

(** *** Computations on the store *)

Lemma KeepsIng_ret {A} (a : A) : KeepsIng (mret a).
Proof. intros s. apply keeps_refl. Qed.

Lemma KeepsIng_lift {A} (m : Eff A) : Keeps m → KeepsIng (lift m).
Proof. intros Hm s. apply Hm. Qed.

Lemma KeepsIng_bind {A B} (m : Ing A) (k : A → Ing B) :
  KeepsIng m → (∀ a, KeepsIng (k a)) → KeepsIng (m ≫= k).
Proof.
  intros Hm Hk s. specialize (Hm s). unfold execIng in *. ing_steps.
  destruct (m s) as [[a|e] s1]; cbn [snd] in *; [|exact Hm].
  eapply keeps_trans; [exact Hm | apply Hk].
Qed.

Lemma KeepsIng_updateCampaignWide (id : string) (updates : list Column) :
  KeepsIng (updateCampaignWide id updates).
Proof. intros s. apply keeps_alter. intros c. apply patchWide_keeps. Qed.

Ltac keepsIng_step :=
  lazymatch goal with
  | |- KeepsIng (mret _) => apply KeepsIng_ret
  | |- KeepsIng (updateCampaignWide _ _) => apply KeepsIng_updateCampaignWide
  | |- KeepsIng (lift _) => apply KeepsIng_lift; keeps_go
  | |- KeepsIng (mbind _ _) => apply KeepsIng_bind; [|intros ?]
  | |- KeepsIng (match ?x with _ => _ end) => destruct x
  | |- KeepsIng (if ?b then _ else _) => destruct b
  end.

Ltac keepsIng_go := repeat keepsIng_step.

Lemma KeepsIng_processWebhook (event : WebhookEvent) : KeepsIng (processWebhook event).
Proof.
  unfold processWebhook, handleEmailSent, handleEmailDelivered, handleEmailBounced,
    handleEmailComplained, handleDeliveryDelayed.
  keepsIng_go; first [apply Keeps_handleEmailOpened | apply Keeps_handleEmailClicked].
Qed.

Lemma KeepsIng_processIncomingReply (E : Engine)
    (handleReply : string → string → ReplyMeta → Ing ClassificationResult)
    (inboundEmail : InboundEmail) :
  (∀ id text meta, KeepsIng (handleReply id text meta)) →
  KeepsIng (processIncomingReply E handleReply inboundEmail).
Proof.
  intros Hh. unfold processIncomingReply.
  keepsIng_go; first [apply Hh | apply Keeps_handleClassifiedReply].
Qed.

Lemma serve_keeps (E : Engine)
    (handleReply : string → string → ReplyMeta → Ing ClassificationResult)
    (op : Op) (s : Store) :
  (∀ id text meta, KeepsIng (handleReply id text meta)) →
  keeps (world s) (world (serve E handleReply s op)).
Proof.
  intros Hh. destruct op; cbn [serve].
  - apply KeepsIng_processWebhook.
  - by apply KeepsIng_processIncomingReply.
  - apply KeepsIng_lift, Keeps_processFollowUpQueue.
  - apply KeepsIng_lift, Keeps_trackOpen.
  - apply KeepsIng_lift, Keeps_trackClick.
  - apply KeepsIng_lift, Keeps_delay.
Qed.

Lemma serveAll_keeps (E : Engine)
    (handleReply : string → string → ReplyMeta → Ing ClassificationResult)
    (ops : list Op) (s : Store) :
  (∀ id text meta, KeepsIng (handleReply id text meta)) →
  keeps (world s) (world (serveAll E handleReply ops s)).
Proof.
  intros Hh. revert s. induction ops as [|op ops IH]; intros s; [apply keeps_refl|].
  unfold serveAll. cbn [fold_left]. fold (serveAll E handleReply ops).
  eapply keeps_trans; [by apply serve_keeps | apply IH].
Qed.

Lemma KeepsIng_answers (r : ClassificationResult) (id text : string) (meta : ReplyMeta) :
  KeepsIng (answers r id text meta).
Proof. apply KeepsIng_ret. Qed.

(** X1: once a campaign has [replied_at], [bounced_at] or [unsubscribed_at]
    set, it keeps one of them set through every later request (webhook
    event, incoming reply, sweep, pixel open, click redirect), so no later
    sweep selects it; the classifier is assumed to keep what the engine
    keeps. *)
Theorem flagged_campaign_stays_out_of_the_sequence (E : Engine)
    (handleReply : string → string → ReplyMeta → Ing ClassificationResult)
    (ops : list Op) (s : Store) (id : string) (c : Campaign) :
  (∀ i text meta, KeepsIng (handleReply i text meta)) →
  outreach_campaigns (world s) !! id = Some c →
  flagged c →
  let s' := serveAll E handleReply ops s in
  ∃ c', outreach_campaigns (world s') !! id = Some c' ∧ flagged c' ∧
        id ∉ (selectFollowUps (world s')).*1.
Proof.
  intros Hh Hc Hflag s'.
  destruct (serveAll_keeps E handleReply ops s Hh) as (_ & Hrows & _).
  destruct (Hrows id c Hc) as (c' & Hc' & (Hr & Hb & Hu) & _).
  assert (flagged c') as Hflag' by (destruct Hflag as [?|[?|?]]; [left|right; left|right; right]; auto).
  exists c'. split; [done|]. split; [done|]. by apply (flagged_not_selected id c').
Qed.

Lemma flagged_campaign_stays_out_of_the_sequence_witness :
  "c1" ∉ (selectFollowUps
            (world (serveAll (defaultEngine alwaysAccepts) (answers interested)
                      [Wait (400 * hour); Sweep;
                       Webhook (eventFor "email.sent" "lead@example.com" None); Sweep]
                      (storeOf repliedLead)))).*1.
Proof.
  destruct (flagged_campaign_stays_out_of_the_sequence (defaultEngine alwaysAccepts)
              (answers interested)
              [Wait (400 * hour); Sweep;
               Webhook (eventFor "email.sent" "lead@example.com" None); Sweep]
              (storeOf repliedLead) "c1"
              (sample "lead@example.com" "sent" (Some 0) None None (Some 1000) None))
    as (c' & _ & _ & Hout).
  - apply KeepsIng_answers.
  - vm_compute. reflexivity.
  - left. by eexists.
  - exact Hout.
Defined.

(** X2: no request takes an address off the block list, and no request
    makes a provider call to an address that was on the block list before
    it; the classifier is assumed to keep what the engine keeps. *)
Theorem blocked_address_is_never_mailed (E : Engine)
    (handleReply : string → string → ReplyMeta → Ing ClassificationResult)
    (ops : list Op) (s : Store) (address : string) :
  (∀ i text meta, KeepsIng (handleReply i text meta)) →
  blocked (world s) address →
  let s' := serveAll E handleReply ops s in
  blocked (world s') address ∧
  ∀ e, e ∈ callsSince (world s) (world s') →
       Js.toLowerCase (mail_to e.2) ≠ Js.toLowerCase address.
Proof.
  intros Hh Hb s'.
  destruct (serveAll_keeps E handleReply ops s Hh) as (_ & _ & Hbl & l & Hl & Hall).
  split; [by apply Hbl|].
  intros e He Heq. unfold callsSince in He. fold s' in Hl.
  rewrite Hl, drop_app_length in He.
  rewrite Forall_forall in Hall. specialize (Hall e He). cbv beta in Hall.
  rewrite Heq in Hall. destruct Hb as [b Hb]. congruence.
Qed.

Lemma blocked_address_is_never_mailed_witness :
  callsSince (world (storeOf blockedLead))
    (world (serveAll (defaultEngine alwaysAccepts) (answers interested)
              [Sweep; IncomingReply (replyFrom "lead@example.com" (Some "Sounds good"))]
              (storeOf blockedLead))) = [].
Proof.
  pose proof (blocked_address_is_never_mailed (defaultEngine alwaysAccepts)
                (answers interested)
                [Sweep; IncomingReply (replyFrom "lead@example.com" (Some "Sounds good"))]
                (storeOf blockedLead) "lead@example.com"
                (KeepsIng_answers interested)) as Hsafe.
  destruct Hsafe as [_ Hcalls]; [eexists; vm_compute; reflexivity|].
  vm_compute. reflexivity.
Defined.



(** ** Webhook events *)

Lemma campaignFor_run (email : string) (w : World) (d : gmap string Details) :
  lift (findCampaignByEmail email) {| world := w; campaign_details := d |}
  = (Normal (campaignFor email {| world := w; campaign_details := d |}),
     {| world := w; campaign_details := d |}).
Proof. reflexivity. Qed.

Lemma campaignFor_row (email id : string) (c : Campaign) (s : Store) :
  campaignFor email s = Some (id, c) → outreach_campaigns (world s) !! id = Some c.
Proof.
  unfold campaignFor. intros H. apply (findCampaignByEmail_row email).
  by destruct (eval (findCampaignByEmail email) (world s)) as [found|]; simplify_eq.
Qed.

Lemma campaignFor_eval (email : string) (s : Store) :
  eval (findCampaignByEmail email) (world s) = Normal (campaignFor email s).
Proof. reflexivity. Qed.

Ltac dispatch Htype :=
  unfold processWebhook; cbv zeta; rewrite Htype;
  repeat (rewrite decide_False by discriminate);
  try (rewrite decide_True by reflexivity).

(** X4: an event of a type [processWebhook] does not know is reported as
    processed and changes nothing. *)
Theorem unknown_event_changes_nothing (event : WebhookEvent) (s : Store) :
  ev_type event ∉ knownEvents →
  processWebhook event s = (Normal {| processed := true; processed_type := ev_type event |}, s).
Proof.
  intros Hnot. unfold knownEvents in Hnot. rewrite !not_elem_of_cons in Hnot.
  destruct Hnot as (? & ? & ? & ? & ? & ? & ? & _).
  unfold processWebhook. cbv zeta.
  repeat (rewrite decide_False by done). reflexivity.
Qed.

Lemma unknown_event_changes_nothing_witness :
  processWebhook (eventFor "email.scheduled" "lead@example.com" None) (storeOf oneLead)
  = (Normal {| processed := true; processed_type := "email.scheduled" |}, storeOf oneLead).
Proof.
  apply (unknown_event_changes_nothing (eventFor "email.scheduled" "lead@example.com" None)).
  cbn. unfold knownEvents. rewrite !not_elem_of_cons. repeat (split; [discriminate|]).
  apply not_elem_of_nil.
Defined.



(** What the handlers leave when the address has no campaign. *)
Lemma handleEmailOpened_none (data : EventData) (w : World) :
  eval (findCampaignByEmail (to data)) w = Normal None →
  handleEmailOpened data w = (Normal tt, w).
Proof.
  intros Hfind. unfold handleEmailOpened. unfold mbind at 1, Eff_bind at 1.
  by rewrite findCampaignByEmail_run, Hfind.
Qed.

Lemma handleEmailClicked_none (data : EventData) (w : World) :
  eval (findCampaignByEmail (to data)) w = Normal None →
  handleEmailClicked data w = (Normal tt, w).
Proof.
  intros Hfind. unfold handleEmailClicked. unfold mbind at 1, Eff_bind at 1.
  by rewrite findCampaignByEmail_run, Hfind.
Qed.

Lemma lift_run {A} (m : Eff A) (w : World) (d : gmap string Details) :
  lift m {| world := w; campaign_details := d |}
  = ((m w).1, {| world := (m w).2; campaign_details := d |}).
Proof. reflexivity. Qed.

Lemma processWebhook_without_campaign (event : WebhookEvent) (s : Store) :
  campaignFor (to (ev_data event)) s = None →
  ev_type event ≠ "email.complained" →
  execIng (processWebhook event) s = s.
Proof.
  intros Hnone Hnot. destruct s as [w d]. unfold execIng, processWebhook. cbv zeta.
  assert (eval (findCampaignByEmail (to (ev_data event))) w = Normal None) as Hfind.
  { rewrite (campaignFor_eval _ {| world := w; campaign_details := d |}). by rewrite Hnone. }
  rewrite (decide_False (P := _ = "email.complained")) by done.
  repeat case_decide.
  - unfold handleEmailSent. unfold mbind at 1 2, Ing_bind at 1 2.
    by rewrite campaignFor_run, Hnone.
  - unfold handleEmailDelivered. unfold mbind at 1 2, Ing_bind at 1 2.
    by rewrite campaignFor_run, Hnone.
  - unfold mbind, Ing_bind. rewrite lift_run, handleEmailOpened_none by done.
    by destruct w.
  - unfold mbind, Ing_bind. rewrite lift_run, handleEmailClicked_none by done.
    by destruct w.
  - unfold handleEmailBounced. unfold mbind at 1 2, Ing_bind at 1 2.
    by rewrite campaignFor_run, Hnone.
  - unfold handleDeliveryDelayed. unfold mbind at 1 2, Ing_bind at 1 2.
    by rewrite campaignFor_run, Hnone.
  - reflexivity.
Qed.

(** X6: an event for an address that has no campaign changes nothing,
    unless it is a complaint: a complaint still puts the lower-cased
    address on the block list, as an unsubscription for [spam_complaint].
    A bounce for such an address is not recorded at all. *)
Theorem event_without_campaign (event : WebhookEvent) (s : Store) :
  campaignFor (to (ev_data event)) s = None →
  let s' := execIng (processWebhook event) s in
  (ev_type event ≠ "email.complained" → s' = s) ∧
  (ev_type event = "email.complained" →
   s' = {| world := with_blocklist
                      <[Js.toLowerCase (to (ev_data event)) :=
                          {| reason := "unsubscribe"; details := Some "spam_complaint";
                             blocked_at := clock (world s) |}]> (world s);
           campaign_details := campaign_details s |}).
Proof.
  intros Hnone s'. split; [by apply processWebhook_without_campaign|].
  subst s'. destruct s as [w d]. unfold execIng, processWebhook. cbv zeta.
  intros Htype. rewrite Htype.
  repeat (rewrite decide_False by discriminate). rewrite decide_True by reflexivity.
  unfold handleEmailComplained. unfold mbind at 1 2 3, Ing_bind at 1 2 3.
  rewrite campaignFor_run, Hnone. reflexivity.
Qed.

Lemma event_without_campaign_witness :
  let bounce := eventFor "email.bounced" "nobody@example.com" (Some "no such user") in
  let complaint := eventFor "email.complained" "Nobody@Example.com" None in
  execIng (processWebhook bounce) (storeOf oneLead) = storeOf oneLead ∧
  email_blocklist (world (execIng (processWebhook complaint) (storeOf oneLead)))
    !! "nobody@example.com"
  = Some {| reason := "unsubscribe"; details := Some "spam_complaint";
            blocked_at := clock oneLead |}.
Proof.
  split.
  - apply (event_without_campaign
             (eventFor "email.bounced" "nobody@example.com" (Some "no such user"))
             (storeOf oneLead)); [vm_compute; reflexivity | discriminate].
  - rewrite (proj2 (event_without_campaign
                      (eventFor "email.complained" "Nobody@Example.com" None)
                      (storeOf oneLead) ltac:(vm_compute; reflexivity)) eq_refl).
    vm_compute. reflexivity.
Defined.

Lemma execIng_lift_then {A B} (m : Eff A) (b : B) (s : Store) :
  world (execIng (lift m;; mret b) s) = exec m (world s).
Proof.
  unfold execIng, exec, mbind, Ing_bind, lift, mret, Ing_ret. cbv zeta.
  by destruct (m (world s)) as [[a|e] w'].
Qed.

(** The status of a row under patches that assign no status. *)
Lemma status_alter (f : Campaign → Campaign) (id j : string) (m : gmap string Campaign) :
  (∀ c, status (f c) = status c) →
  status <$> alter f id m !! j = status <$> m !! j.
Proof.
  intros Hf. destruct (decide (id = j)) as [->|Hne].
  - rewrite lookup_alter_eq. destruct (m !! j); cbn; by rewrite ?Hf.
  - by rewrite lookup_alter_ne.
Qed.

(** X7: the only events that change the status of a campaign row are
    [email.sent], [email.bounced], [email.complained], and [email.clicked]
    with a link that contains [calendly]; after any other event every row
    has the status it had, and no row has appeared or gone. *)
Theorem status_changing_events (event : WebhookEvent) (s : Store) (id : string) :
  ev_type event ∉ ["email.sent"; "email.bounced"; "email.complained"] →
  (ev_type event = "email.clicked" →
   Js.truthy (link (ev_data event))
   && Js.includes "calendly" (default "" (link (ev_data event))) = false) →
  status <$> outreach_campaigns (world (execIng (processWebhook event) s)) !! id
  = status <$> outreach_campaigns (world s) !! id.
Proof.
  intros Hnot Hlink. rewrite !not_elem_of_cons in Hnot. destruct Hnot as (? & ? & ? & _).
  destruct (campaignFor (to (ev_data event)) s) as [[cid c]|] eqn:Hfound;
    [|by rewrite (processWebhook_without_campaign event s Hfound)].
  pose proof (campaignFor_eval (to (ev_data event)) s) as Hfind. rewrite Hfound in Hfind.
  destruct s as [w d]. cbn [world] in Hfind.
  unfold processWebhook. cbv zeta.
  rewrite (decide_False (P := _ = "email.sent")) by done.
  rewrite (decide_False (P := _ = "email.bounced")) by done.
  rewrite (decide_False (P := _ = "email.complained")) by done.
  repeat case_decide.
  - unfold execIng, handleEmailDelivered. unfold mbind at 1 2, Ing_bind at 1 2.
    rewrite campaignFor_run, Hfound. ing_steps. eff_steps. cbn.
    by apply status_alter.
  - rewrite execIng_lift_then. cbn [world].
    rewrite (handleEmailOpened_row _ _ _ _ Hfind).
    apply status_alter. intros c0. by destruct (opened_at c).
  - rewrite execIng_lift_then. cbn [world].
    rewrite (handleEmailClicked_row _ _ _ _ Hfind), Hlink by done.
    by rewrite !status_alter.
  - unfold execIng, handleDeliveryDelayed. unfold mbind at 1 2, Ing_bind at 1 2.
    rewrite campaignFor_run, Hfound. unfold logEngagement. ing_steps. eff_steps. done.
  - reflexivity.
Qed.

Lemma status_changing_events_witness :
  status <$> outreach_campaigns
    (world (execIng (processWebhook (eventFor "email.opened" "lead@example.com" None))
                    (storeOf oneLead))) !! "c1"
  = status <$> outreach_campaigns (world (storeOf oneLead)) !! "c1".
Proof.
  apply (status_changing_events (eventFor "email.opened" "lead@example.com" None)
           (storeOf oneLead) "c1").
  - cbn. rewrite !not_elem_of_cons. repeat (split; [discriminate|]). apply not_elem_of_nil.
  - discriminate.
Defined.

Lemma sent_event_run (event : WebhookEvent) (w : World) (d : gmap string Details)
    (id : string) (c : Campaign) :
  ev_type event = "email.sent" →
  campaignFor (to (ev_data event)) {| world := w; campaign_details := d |} = Some (id, c) →
  execIng (processWebhook event) {| world := w; campaign_details := d |}
  = {| world := with_campaigns
         (alter (λ c, fold_left assignWide
                   [Resend_email_id (email_id (ev_data event)); Sent_at (clock w);
                    Narrow (Status "sent"); Narrow (Updated_at (clock w))] c) id) w;
       campaign_details :=
         <[id := assignDetails (default noDetails (d !! id))
                   (Resend_email_id (email_id (ev_data event)))]> d |}.
Proof.
  intros Htype Hfound. pose proof (campaignFor_row _ _ _ _ Hfound) as Hrow.
  cbn [world] in Hrow. unfold execIng. dispatch Htype.
  unfold handleEmailSent. unfold mbind at 1 2, Ing_bind at 1 2.
  rewrite campaignFor_run, Hfound. ing_steps. eff_steps. unfold updateCampaignWide.
  cbn [snd world campaign_details fst]. rewrite Hrow. reflexivity.
Qed.

(** X8: an [email.sent] event for an address that has a campaign sets the
    row's status to [sent] and [sent_at] to the time of the event, whatever
    they were, and records the provider's email id: the row is at the
    first step of the follow-up sequence again, while [followup_count] and
    [last_followup_at] stay as they were. *)
Theorem sent_event_restarts_the_sequence (event : WebhookEvent) (s : Store)
    (id : string) (c : Campaign) :
  ev_type event = "email.sent" →
  campaignFor (to (ev_data event)) s = Some (id, c) →
  let s' := execIng (processWebhook event) s in
  ∃ c', outreach_campaigns (world s') !! id = Some c' ∧
        status c' = "sent" ∧ sent_at c' = Some (clock (world s)) ∧
        getCurrentSequenceStep (status c') = 0%nat ∧
        followup_count c' = followup_count c ∧
        last_followup_at c' = last_followup_at c ∧
        resend_email_id (detailsOf s' id) = Some (email_id (ev_data event)).
Proof.
  intros Htype Hfound s'. pose proof (campaignFor_row _ _ _ _ Hfound) as Hrow.
  subst s'. destruct s as [w d]. cbn [world] in Hrow.
  rewrite (sent_event_run _ _ _ _ _ Htype Hfound). cbn [world outreach_campaigns with_campaigns].
  rewrite lookup_alter_eq, Hrow. eexists. split; [reflexivity|].
  unfold detailsOf. cbn [campaign_details]. rewrite lookup_insert_eq. done.
Qed.

Lemma sent_event_restarts_the_sequence_witness :
  let s' := execIng (processWebhook (eventFor "email.sent" "lead@example.com" None))
                    (storeOf afterSecondFollowUp) in
  ∃ c', outreach_campaigns (world s') !! "c1" = Some c' ∧
        status c' = "sent" ∧ sent_at c' = Some (clock afterSecondFollowUp) ∧
        getCurrentSequenceStep (status c') = 0%nat ∧
        followup_count c' = followup_count secondFollowUpOut ∧
        last_followup_at c' = last_followup_at secondFollowUpOut ∧
        resend_email_id (detailsOf s' "c1") = Some "e1".
Proof.
  apply (sent_event_restarts_the_sequence (eventFor "email.sent" "lead@example.com" None)
           (storeOf afterSecondFollowUp) "c1" secondFollowUpOut).
  - reflexivity.
  - vm_compute. reflexivity.
Defined.

(** ** Replies *)

(** X9: a reply whose sender has no campaign is answered with
    [no_campaign_found]; the store is left as it was and the classifier is
    not run, whatever it is. *)
Theorem reply_without_campaign (E : Engine)
    (handleReply : string → string → ReplyMeta → Ing ClassificationResult)
    (inboundEmail : InboundEmail) (s : Store) :
  campaignFor (extractEmail (inbound_from inboundEmail)) s = None →
  processIncomingReply E handleReply inboundEmail s = (Normal NoCampaignFound, s).
Proof.
  intros Hnone. destruct s as [w d]. unfold processIncomingReply. cbv zeta.
  unfold mbind at 1, Ing_bind at 1. by rewrite campaignFor_run, Hnone.
Qed.

Lemma reply_without_campaign_witness :
  processIncomingReply (defaultEngine alwaysAccepts) (fails (TypeError "unreachable"))
    (replyFrom "Bob <bob@example.com>" (Some "Hello")) (storeOf oneLead)
  = (Normal NoCampaignFound, storeOf oneLead).
Proof.
  apply (reply_without_campaign (defaultEngine alwaysAccepts) (fails (TypeError "unreachable"))
           (replyFrom "Bob <bob@example.com>" (Some "Hello")) (storeOf oneLead)).
  vm_compute. reflexivity.
Defined.

(** X10: a reply from an address with a campaign is recorded on the row
    before the classifier runs: the classifier starts in a store where the
    row has [replied_at] set to the time of the request, status [replied]
    and the cleaned text as [last_reply_text], so the row is outside the
    follow-up query; and when the classifier throws, [processIncomingReply]
    throws the same error from the store the classifier left, without
    counting the reply. *)
Theorem reply_is_recorded_before_classification (E : Engine)
    (handleReply : string → string → ReplyMeta → Ing ClassificationResult)
    (inboundEmail : InboundEmail) (s : Store) (id : string) (c : Campaign) :
  let sender := extractEmail (inbound_from inboundEmail) in
  campaignFor sender s = Some (id, c) →
  ∃ s1 c1,
    outreach_campaigns (world s1) !! id = Some c1 ∧
    replied_at c1 = Some (clock (world s)) ∧ status c1 = "replied" ∧
    needsFollowUp c1 = false ∧
    last_reply_text (detailsOf s1 id) = Some (replyText inboundEmail) ∧
    stats (world s1) = stats (world s) ∧
    ∀ e s2,
      handleReply id (replyText inboundEmail)
        {| meta_from := sender; meta_subject := inbound_subject inboundEmail;
           receivedAt := clock (world s) |} s1 = (Throw e, s2) →
      processIncomingReply E handleReply inboundEmail s = (Throw e, s2).
Proof.
  intros sender Hfound. pose proof (campaignFor_row _ _ _ _ Hfound) as Hrow.
  destruct s as [w d]. cbn [world] in *.
  exists (execIng (updateCampaignWide id
            [Replied_at (clock w); Narrow (Status "replied");
             Last_reply_text (replyText inboundEmail)])
          {| world := w; campaign_details := d |}).
  unfold execIng, updateCampaignWide. cbn [snd world campaign_details]. rewrite Hrow.
  eexists. cbn [world outreach_campaigns with_campaigns].
  rewrite lookup_alter_eq, Hrow. split; [reflexivity|].
  split; [reflexivity|]. split; [reflexivity|]. split; [reflexivity|].
  split; [unfold detailsOf; cbn [campaign_details]; by rewrite lookup_insert_eq|].
  split; [reflexivity|].
  intros e s2 Hthrow. unfold processIncomingReply. cbv zeta.
  unfold mbind at 1, Ing_bind at 1. fold sender. rewrite campaignFor_run, Hfound.
  unfold mbind at 1 2 3 4, Ing_bind at 1 2 3 4. unfold lift at 1 2. unfold now, gets.
  cbv beta iota zeta. cbn [fst snd world campaign_details].
  unfold updateCampaignWide at 1. cbn [world campaign_details]. rewrite Hrow.
  fold (replyText inboundEmail). cbn [clock with_campaigns].
  by rewrite Hthrow.
Qed.

Lemma reply_is_recorded_before_classification_witness :
  let inbound := replyFrom "Ann Lee <Lead@Example.com>" (Some "Not now, thanks") in
  ∃ s1 c1,
    outreach_campaigns (world s1) !! "c1" = Some c1 ∧
    replied_at c1 = Some (clock oneLead) ∧ status c1 = "replied" ∧
    needsFollowUp c1 = false ∧
    last_reply_text (detailsOf s1 "c1") = Some (replyText inbound) ∧
    stats (world s1) = stats oneLead ∧
    ∀ e s2,
      fails (TypeError "classifier down") "c1" (replyText inbound)
        {| meta_from := extractEmail (inbound_from inbound);
           meta_subject := inbound_subject inbound;
           receivedAt := clock oneLead |} s1 = (Throw e, s2) →
      processIncomingReply (defaultEngine alwaysAccepts) (fails (TypeError "classifier down"))
        inbound (storeOf oneLead) = (Throw e, s2).
Proof.
  apply (reply_is_recorded_before_classification (defaultEngine alwaysAccepts)
           (fails (TypeError "classifier down"))
           (replyFrom "Ann Lee <Lead@Example.com>" (Some "Not now, thanks"))
           (storeOf oneLead) "c1" (sentCampaign 0)).
  vm_compute. reflexivity.
Defined.

(** ** Classified replies *)

(** [sendEmail], run. *)
Lemma sendEmail_run (E : Engine) (to subject body : string) (cid : option string) (w : World) :
  sendEmail E to subject body cid w =
  if bool_decide (blocked w to) then (Normal Blocked, w)
  else
    let mail := sendRequest E to subject body cid in
    let w1 := with_outbox (λ l, l ++ [(cid, mail)]) w in
    match resend E (outbox w) mail with
    | Accepted i => (Normal (Sent i), with_stats countEmailSent w1)
    | Rejected m => (Normal (NotSent m), w1)
    | Failed m => (Normal (NotSent m), w1)
    end.
Proof.
  unfold sendEmail, isEmailBlocked, resend_emails_send, blocked. eff_steps.
  destruct (bool_decide _); [reflexivity|].
  by destruct (resend E (outbox w) _).
Qed.

Lemma callsSince_app (w w' : World) (l : list (option string * Email)) :
  outbox w' = outbox w ++ l → callsSince w w' = l.
Proof. intros H. unfold callsSince. by rewrite H, drop_app_length. Qed.

Lemma callsSince_same (w w' : World) : outbox w' = outbox w → callsSince w w' = [].
Proof. intros H. apply callsSince_app. by rewrite app_nil_r. Qed.

(** The provider calls of one [sendEmail]. *)
Lemma sendEmail_calls (E : Engine) (to subject body : string) (cid : option string) (w : World) :
  outbox (exec (sendEmail E to subject body cid) w) =
  outbox w ++ if bool_decide (blocked w to) then []
              else [(cid, sendRequest E to subject body cid)].
Proof.
  unfold exec. rewrite sendEmail_run. destruct (bool_decide _); [by rewrite app_nil_r|].
  cbv zeta. by destruct (resend E (outbox w) _).
Qed.

Lemma sendFollowUpEmail_calls (E : Engine) (id : string) (c : Campaign)
    (responseText type : string) (w : World) :
  ∃ mail, mail_to mail = recipient_email c ∧
    outbox (exec (sendFollowUpEmail E (id, c) responseText type) w) =
    outbox w ++ if bool_decide (blocked w (recipient_email c)) then [] else [(Some id, mail)].
Proof.
  eexists (sendRequest E (recipient_email c) _ _ (Some id)). split; [reflexivity|].
  unfold exec, sendFollowUpEmail. cbv zeta. unfold mbind at 1, Eff_bind at 1.
  cbn [fst snd]. rewrite sendEmail_run.
  destruct (bool_decide _).
  - unfold storeOutgoingEmail. eff_steps. cbn. by rewrite app_nil_r.
  - cbv zeta. destruct (resend E (outbox w) _); unfold storeOutgoingEmail; eff_steps; reflexivity.
Qed.

Lemma sendBookingEmail_calls (E : Engine) (id : string) (c : Campaign) (w : World) :
  ∃ mail, mail_to mail = recipient_email c ∧
    outbox (exec (sendBookingEmail E (id, c)) w) =
    outbox w ++ if bool_decide (blocked w (recipient_email c)) then [] else [(Some id, mail)].
Proof.
  eexists (sendRequest E (recipient_email c) _ _ (Some id)). split; [reflexivity|].
  unfold exec, sendBookingEmail. cbv zeta. unfold mbind at 1, Eff_bind at 1.
  cbn [fst snd]. rewrite sendEmail_run.
  destruct (bool_decide _).
  - unfold updateCampaign. eff_steps. cbn. by rewrite app_nil_r.
  - cbv zeta. destruct (resend E (outbox w) _); unfold updateCampaign; eff_steps; reflexivity.
Qed.

(** X11: acting on a classified reply makes at most one provider call, and
    that call is made for the campaign and addressed to its recipient; no
    call is made when the action is not one of the three sending actions,
    or when the recipient is on the block list. *)
Theorem classified_reply_sends_at_most_once (E : Engine) (id : string) (c : Campaign)
    (r : ClassificationResult) (w : World) :
  let calls := callsSince w (exec (handleClassifiedReply E (id, c) r) w) in
  (calls = [] ∨ ∃ mail, calls = [(Some id, mail)] ∧ mail_to mail = recipient_email c) ∧
  (action r ∉ sendingActions → calls = []) ∧
  (blocked w (recipient_email c) → calls = []).
Proof.
  intros calls.
  assert (∃ mail, mail_to mail = recipient_email c ∧
          (calls = [] ∨
           (calls = [(Some id, mail)] ∧ action r ∈ sendingActions ∧
            ¬ blocked w (recipient_email c)))) as (mail & Hto & Hcalls).
  { subst calls. unfold handleClassifiedReply.
    destruct (classification r);
      [|exists (sendRequest E (recipient_email c) "" "" None); split; [done|left];
        by apply callsSince_same].
    cbv zeta. unfold sendingActions. repeat case_decide.
    - destruct (Js.truthy (response r)).
      + destruct (sendFollowUpEmail_calls E id c (default "" (response r)) "reply_response" w)
          as (mail & Hto & Hout).
        exists mail. split; [done|]. rewrite (callsSince_app _ _ _ Hout).
        case_bool_decide; [by left|right]. split; [done|]. split; [|done].
        rewrite !elem_of_cons. tauto.
      + exists (sendRequest E (recipient_email c) "" "" None). split; [done|left].
        by apply callsSince_same.
    - destruct (sendBookingEmail_calls E id c w) as (mail & Hto & Hout).
      exists mail. split; [done|].
      assert (outbox (exec (sendBookingEmail E (id, c);;
                modify (with_stats (λ s,
                  {| emailsSent := emailsSent s; repliesProcessed := repliesProcessed s;
                     bookingsTriggered := bookingsTriggered s + 1;
                     followUpsSent := followUpsSent s |}))) w)
              = outbox (exec (sendBookingEmail E (id, c)) w)) as Heq.
      { unfold exec. unfold mbind at 1, Eff_bind at 1.
        destruct (sendBookingEmail E (id, c) w) as [[[]|e] w1]; reflexivity. }
      rewrite (callsSince_app _ _ _ (eq_trans Heq Hout)).
      case_bool_decide; [by left|right]. split; [done|]. split; [|done].
      rewrite !elem_of_cons. tauto.
    - exists (sendRequest E (recipient_email c) "" "" None). split; [done|left].
      by apply callsSince_same.
    - exists (sendRequest E (recipient_email c) "" "" None). split; [done|left].
      apply callsSince_same. unfold addToUnsubscribeList. by eff_steps.
    - exists (sendRequest E (recipient_email c) "" "" None). split; [done|left].
      apply callsSince_same. unfold scheduleRetry, updateCampaign. by eff_steps.
    - exists (sendRequest E (recipient_email c) "" "" None). split; [done|left].
      apply callsSince_same. unfold flagForReview, updateCampaign. by eff_steps.
    - exists (sendRequest E (recipient_email c) "" "" None). split; [done|left].
      by apply callsSince_same. }
  split; [|split].
  - destruct Hcalls as [->|(-> & _)]; [by left|right; by exists mail].
  - intros Hnot. by destruct Hcalls as [->|(_ & ? & _)].
  - intros Hb. by destruct Hcalls as [->|(_ & _ & ?)].
Qed.

Lemma classified_reply_sends_at_most_once_witness :
  let calls := callsSince blockedLead
                 (exec (handleClassifiedReply (defaultEngine alwaysAccepts)
                          ("c1", sentCampaign 0) asksForCalendar) blockedLead) in
  calls = [].
Proof.
  apply (classified_reply_sends_at_most_once (defaultEngine alwaysAccepts) "c1" (sentCampaign 0)
           asksForCalendar blockedLead).
  vm_compute. by eexists.
Defined.

Lemma sendEmail_effect (E : Engine) (to subject body : string) (cid : option string)
    (w : World) :
  ∃ result w1, sendEmail E to subject body cid w = (Normal result, w1) ∧
    outreach_campaigns w1 = outreach_campaigns w ∧ clock w1 = clock w ∧
    bookingsTriggered (stats w1) = bookingsTriggered (stats w) ∧
    (blocked w to → w1 = w).
Proof.
  rewrite sendEmail_run. destruct (bool_decide (blocked w to)) eqn:Hb.
  - by exists Blocked, w.
  - apply bool_decide_eq_false in Hb. cbv zeta.
    destruct (resend E (outbox w) _); eexists _, _; (split; [reflexivity|]); done.
Qed.

(** X12: the calendar action marks the booking whatever becomes of the
    email: the row gets status [booking_sent] and [booking_email_sent_at],
    and [bookingsTriggered] is counted, also when the recipient is on the
    block list, in which case no provider call is made and [emailsSent]
    stays as it was. *)
Theorem booking_is_recorded_whatever_the_send_does (E : Engine) (id : string)
    (c row : Campaign) (r : ClassificationResult) (w : World) :
  action r = "send_calendar_link" → is_Some (classification r) →
  outreach_campaigns w !! id = Some row →
  let w' := exec (handleClassifiedReply E (id, c) r) w in
  (∃ row', outreach_campaigns w' !! id = Some row' ∧ status row' = "booking_sent" ∧
           booking_email_sent_at row' = Some (clock w)) ∧
  bookingsTriggered (stats w') = bookingsTriggered (stats w) + 1 ∧
  (blocked w (recipient_email c) →
   outbox w' = outbox w ∧ emailsSent (stats w') = emailsSent (stats w)).
Proof.
  intros Haction [cls Hcls] Hrow w'.
  assert (∃ w1, outreach_campaigns w1 = outreach_campaigns w ∧ clock w1 = clock w ∧
            bookingsTriggered (stats w1) = bookingsTriggered (stats w) ∧
            (blocked w (recipient_email c) → w1 = w) ∧
            w' = with_stats (λ s,
                   {| emailsSent := emailsSent s; repliesProcessed := repliesProcessed s;
                      bookingsTriggered := bookingsTriggered s + 1;
                      followUpsSent := followUpsSent s |})
                   (with_campaigns
                      (alter (patch [Status "booking_sent"; Booking_email_sent_at (clock w1);
                                     Updated_at (clock w1)]) id) w1))
    as (w1 & Hcamp & Hclock & Hstats & Hblocked & ->).
  { subst w'. unfold exec, handleClassifiedReply. rewrite Hcls, Haction. cbv zeta.
    rewrite decide_False by (intros [?|?]; discriminate).
    rewrite decide_True by reflexivity.
    unfold sendBookingEmail. cbv zeta. cbn [fst snd].
    unfold mbind at 1 2, Eff_bind at 1 2.
    destruct (sendEmail_effect E (recipient_email c)
      ("Let's find a time to chat, " +:+ Js.orElse (Some (firstNameOf c)) (company_name c))
      (greeting (firstNameOf c) +:+ "

Great to hear back from you! I'd love to learn more about what you're building at "
    +:+ company_name c +:+ ".

Here's my calendar - pick any time that works for you:

" +:+ calendlyLink E +:+ "

The call will be quick (15-20 minutes) and focused on understanding your specific situation.

Looking forward to it!

" +:+ senderName E) (Some id) w) as (result & w1 & Hrun & Hfacts).
    exists w1. rewrite Hrun. unfold updateCampaign. eff_steps.
    destruct Hfacts as (? & ? & ? & ?). done. }
  cbn [outreach_campaigns with_stats with_campaigns stats bookingsTriggered outbox emailsSent].
  rewrite lookup_alter_eq, Hcamp, Hrow, Hclock, Hstats.
  split; [by eexists|]. split; [done|].
  intros Hb. by rewrite (Hblocked Hb).
Qed.

Lemma booking_is_recorded_whatever_the_send_does_witness :
  let w' := exec (handleClassifiedReply (defaultEngine alwaysAccepts) ("c1", sentCampaign 0)
                    asksForCalendar) blockedLead in
  (∃ row', outreach_campaigns w' !! "c1" = Some row' ∧ status row' = "booking_sent" ∧
           booking_email_sent_at row' = Some (clock blockedLead)) ∧
  bookingsTriggered (stats w') = bookingsTriggered (stats blockedLead) + 1 ∧
  (blocked blockedLead "lead@example.com" →
   outbox w' = outbox blockedLead ∧ emailsSent (stats w') = emailsSent (stats blockedLead)).
Proof.
  apply (booking_is_recorded_whatever_the_send_does (defaultEngine alwaysAccepts) "c1"
           (sentCampaign 0) (sentCampaign 0) asksForCalendar blockedLead).
  - reflexivity.
  - by eexists.
  - vm_compute. reflexivity.
Defined.

(** X13: a removal request puts the lower-cased recipient on the block
    list, as an unsubscription with details [requested], and changes
    nothing else: the campaign row is not marked unsubscribed and the
    follow-up query selects what it selected; it is the block list that
    stops the mail, since every later [sendEmail] to the address returns
    the blocked result. *)
Theorem removal_request_blocks_the_recipient (E : Engine) (id : string) (c : Campaign)
    (r : ClassificationResult) (w : World) :
  action r = "remove_from_list" → is_Some (classification r) →
  let w' := with_blocklist
              <[Js.toLowerCase (recipient_email c) :=
                  {| reason := "unsubscribe"; details := Some "requested";
                     blocked_at := clock w |}]> w in
  handleClassifiedReply E (id, c) r w = (Normal tt, w') ∧
  selectFollowUps w' = selectFollowUps w ∧
  ∀ to' subject body cid,
    Js.toLowerCase to' = Js.toLowerCase (recipient_email c) →
    sendEmail E to' subject body cid w' = (Normal Blocked, w').
Proof.
  intros Haction [cls Hcls] w'. split; [|split].
  - unfold handleClassifiedReply. rewrite Hcls, Haction. cbv zeta.
    rewrite decide_False by (intros [?|?]; discriminate).
    repeat (rewrite decide_False by discriminate). rewrite decide_True by reflexivity.
    unfold addToUnsubscribeList. by eff_steps.
  - reflexivity.
  - intros to' subject body cid Hsame. apply sendEmail_blocked.
    unfold blocked, w'. cbn. rewrite Hsame, lookup_insert_eq. by eexists.
Qed.

Lemma removal_request_blocks_the_recipient_witness :
  let w' := with_blocklist
              <[ "lead@example.com" :=
                  {| reason := "unsubscribe"; details := Some "requested";
                     blocked_at := clock oneLead |}]> oneLead in
  handleClassifiedReply (defaultEngine alwaysAccepts) ("c1", sentCampaign 0) asksForRemoval
    oneLead = (Normal tt, w') ∧
  selectFollowUps w' = selectFollowUps oneLead ∧
  ∀ to' subject body cid,
    Js.toLowerCase to' = "lead@example.com" →
    sendEmail (defaultEngine alwaysAccepts) to' subject body cid w' = (Normal Blocked, w').
Proof.
  apply (removal_request_blocks_the_recipient (defaultEngine alwaysAccepts) "c1"
           (sentCampaign 0) asksForRemoval oneLead).
  - reflexivity.
  - by eexists.
Defined.

(** X14: [scheduleRetry] takes the row out of the follow-up query (its
    status becomes [retry_scheduled], with the retry time the given number
    of hours ahead), while [flagForReview] leaves every row as eligible as
    it was: the review flag does not pause the sequence.  Neither touches
    another row. *)
Theorem retry_leaves_the_sequence_review_does_not (id reason : string) (hoursDelay : Z)
    (row : Campaign) (w : World) :
  outreach_campaigns w !! id = Some row →
  (∃ row', outreach_campaigns (exec (scheduleRetry id hoursDelay) w) !! id = Some row' ∧
           retry_scheduled_at row' = Some (clock w + hoursDelay * 3600000) ∧
           needsFollowUp row' = false) ∧
  (∃ row', outreach_campaigns (exec (flagForReview id reason) w) !! id = Some row' ∧
           needs_review row' = true ∧ needsFollowUp row' = needsFollowUp row) ∧
  ∀ j, j ≠ id →
    outreach_campaigns (exec (scheduleRetry id hoursDelay) w) !! j = outreach_campaigns w !! j ∧
    outreach_campaigns (exec (flagForReview id reason) w) !! j = outreach_campaigns w !! j.
Proof.
  intros Hrow. unfold exec, scheduleRetry, flagForReview, updateCampaign. eff_steps. cbn.
  rewrite !lookup_alter_eq, Hrow. split; [|split].
  - eexists. split; [reflexivity|]. split; [cbn; f_equal; lia|reflexivity].
  - eexists. split; [reflexivity|]. done.
  - intros j Hne. by rewrite !lookup_alter_ne.
Qed.

Lemma retry_leaves_the_sequence_review_does_not_witness :
  (∃ row', outreach_campaigns (exec (scheduleRetry "c1" 72) oneLead) !! "c1" = Some row' ∧
           retry_scheduled_at row' = Some (clock oneLead + 72 * 3600000) ∧
           needsFollowUp row' = false) ∧
  (∃ row', outreach_campaigns (exec (flagForReview "c1" "unclear_reply") oneLead) !! "c1"
             = Some row' ∧
           needs_review row' = true ∧ needsFollowUp row' = needsFollowUp (sentCampaign 0)) ∧
  ∀ j, j ≠ "c1" →
    outreach_campaigns (exec (scheduleRetry "c1" 72) oneLead) !! j
      = outreach_campaigns oneLead !! j ∧
    outreach_campaigns (exec (flagForReview "c1" "unclear_reply") oneLead) !! j
      = outreach_campaigns oneLead !! j.
Proof.
  apply (retry_leaves_the_sequence_review_does_not "c1" "unclear_reply" 72 (sentCampaign 0)
           oneLead).
  vm_compute. reflexivity.
Defined.

(** ** Tracking endpoints *)

(** X15: the tracking endpoints answer whether the campaign exists or not:
    [trackClick] always returns the target URL it was given and
    [trackOpen] the same pixel, and for an id that is no campaign's both
    leave the state as it was. *)
Theorem tracking_answers_for_any_id (id targetUrl : string) (w : World) :
  eval (trackClick id targetUrl) w = Normal targetUrl ∧
  eval (trackOpen id) w
    = Normal "R0lGODlhAQABAIAAAAAAAP///yH5BAEAAAAALAAAAAABAAEAAAIBRAA7" ∧
  (outreach_campaigns w !! id = None →
   exec (trackClick id targetUrl) w = w ∧ exec (trackOpen id) w = w).
Proof.
  unfold eval, exec, trackClick, trackOpen, updateCampaign, logEngagement. eff_steps.
  destruct (outreach_campaigns w !! id); done.
Qed.

Lemma tracking_answers_for_any_id_witness :
  exec (trackClick "unknown" "https://example.com") oneLead = oneLead ∧
  exec (trackOpen "unknown") oneLead = oneLead.
Proof.
  apply (tracking_answers_for_any_id "unknown" "https://example.com" oneLead).
  reflexivity.
Defined.

(** ** The sweep *)

Lemma sendEmail_sweep (E : Engine) (to subject body : string) (cid : option string)
    (w : World) :
  let w1 := exec (sendEmail E to subject body cid) w in
  clock w1 = clock w ∧ followUpsSent (stats w1) = followUpsSent (stats w) ∧
  email_conversations w1 = email_conversations w ∧
  outreach_campaigns w1 = outreach_campaigns w.
Proof.
  cbv zeta. unfold exec. rewrite sendEmail_run. destruct (bool_decide _); [done|].
  cbv zeta. by destruct (resend E (outbox w) _).
Qed.

Lemma callsFor_app (id : string) (l1 l2 : list (option string * Email)) :
  callsFor id (l1 ++ l2) = callsFor id l1 ++ callsFor id l2.
Proof. apply filter_app. Qed.

Lemma callsFor_others (id : string) (ids : list string) (l : list (option string * Email)) :
  Forall (λ e, ∃ j, e.1 = Some j ∧ j ∈ ids) l → id ∉ ids → callsFor id l = [].
Proof.
  intros Hall Hid. induction Hall as [|e l (j & He & Hj) _ IH]; [done|].
  unfold callsFor. rewrite filter_cons_False; [exact IH|].
  rewrite He. intros [= ->]. done.
Qed.

(** What the loop of the sweep does over campaigns with distinct ids: [n]
    of them are sent to. *)
Lemma followUpLoop_accounting (E : Engine) (l : list (string * Campaign)) (k : Z) (w : World) :
  NoDup l.*1 →
  ∃ (n : nat) calls w',
    followUpLoop E l k w = (Normal (k + Z.of_nat n), w') ∧ (n ≤ length l)%nat ∧
    clock w' = clock w + 10000 * Z.of_nat n ∧
    followUpsSent (stats w') = followUpsSent (stats w) ∧
    length (email_conversations w') = (length (email_conversations w) + n)%nat ∧
    outbox w' = outbox w ++ calls ∧ (length calls ≤ n)%nat ∧
    Forall (λ e, ∃ j, e.1 = Some j ∧ j ∈ l.*1) calls ∧
    ∀ id, (length (callsFor id calls) ≤ 1)%nat.
Proof.
  revert k w. induction l as [|[id0 c] l IH]; intros k w Hnodup.
  - exists 0%nat, [], w. cbn [followUpLoop]. unfold mret, Eff_ret.
    change (Z.of_nat 0) with 0.
    rewrite Z.add_0_r, Z.mul_0_r, Z.add_0_r, Nat.add_0_r, app_nil_r. repeat split; try done.
    intros id. cbn. lia.
  - rewrite fmap_cons in Hnodup. apply NoDup_cons in Hnodup as [Hfresh Hnodup].
    cbn [followUpLoop]. unfold shouldSendFollowUp. eff_steps. cbn [snd fst].
    destruct (shouldSendFollowUpAt E (clock w) c) eqn:Hdue.
    + apply shouldSendFollowUpAt_spec in Hdue as (step & Hstep & _).
      rewrite (sendNextFollowUp_step E id0 c step w Hstep). cbv zeta.
      set (content := generateFollowUpEmail E c step).
      pose proof (sendEmail_sweep E (recipient_email c) (content_subject content)
                    (content_body content) (Some id0) w) as (Hclock & Hstats & Hconv & _).
      pose proof (sendEmail_calls E (recipient_email c) (content_subject content)
                    (content_body content) (Some id0) w) as Hout.
      set (w1 := exec (sendEmail E (recipient_email c) (content_subject content)
                         (content_body content) (Some id0)) w) in *.
      unfold delay. eff_steps.
      match goal with |- context [followUpLoop E l (k + 1) ?w2] =>
        destruct (IH (k + 1) w2 Hnodup)
          as (n & calls & w' & -> & Hn & Hclock' & Hstats' & Hconv' & Hout' & Hlen & Hall & Hone)
      end.
      cbn [clock with_clock with_conversations with_campaigns stats email_conversations outbox]
        in Hclock', Hstats', Hconv', Hout'.
      exists (S n), ((if bool_decide (blocked w (recipient_email c)) then []
                      else [(Some id0, sendRequest E (recipient_email c)
                               (content_subject content) (content_body content) (Some id0))])
                     ++ calls), w'.
      split; [f_equal; f_equal; lia|]. split; [cbn; lia|].
      split; [rewrite Hclock', Hclock; lia|].
      split; [by rewrite Hstats', Hstats|].
      split; [rewrite Hconv', length_app, Hconv; cbn; lia|].
      split; [by rewrite Hout', Hout, app_assoc|].
      split; [rewrite length_app; destruct (bool_decide _); cbn; lia|].
      split.
      * apply Forall_app. split.
        -- destruct (bool_decide _); [constructor|].
           constructor; [|constructor]. exists id0. split; [done|]. rewrite fmap_cons. left.
        -- eapply Forall_impl; [exact Hall|]. intros e (j & He & Hj). exists j.
           split; [done|]. rewrite fmap_cons. by right.
      * intros id. rewrite callsFor_app, length_app.
        destruct (decide (id = id0)) as [->|Hne].
        -- rewrite (callsFor_others id0 l.*1 calls Hall Hfresh).
           destruct (bool_decide _); [cbn; lia|]. unfold callsFor.
           rewrite filter_cons_True by done. cbn. lia.
        -- pose proof (Hone id).
           assert (callsFor id (if bool_decide (blocked w (recipient_email c)) then []
                     else [(Some id0, sendRequest E (recipient_email c)
                              (content_subject content) (content_body content) (Some id0))])
                   = []) as ->; [|cbn; lia].
           destruct (bool_decide _); [done|]. unfold callsFor.
           rewrite filter_cons_False by (cbn; congruence). done.
    + destruct (IH k w Hnodup)
        as (n & calls & w' & -> & Hn & Hclock' & Hstats' & Hconv' & Hout' & Hlen & Hall & Hone).
      exists n, calls, w'. split; [done|]. split; [cbn; lia|].
      repeat (split; [done|]). split; [|done].
      eapply Forall_impl; [exact Hall|]. intros e (j & He & Hj). exists j.
      split; [done|]. rewrite fmap_cons. by right.
Qed.

Lemma selectFollowUps_NoDup (w : World) : NoDup (selectFollowUps w).*1.
Proof.
  eapply sublist_NoDup; [apply (NoDup_fst_map_to_list (outreach_campaigns w))|].
  unfold selectFollowUps. apply fmap_sublist, sublist_filter.
Qed.

(** X16: a sweep returns the number [n] of campaigns it found due, at most
    the number the query selected; it adds [n] to [followUpsSent] and [n]
    conversation rows, and advances the clock by [n] times ten seconds; it
    makes at most [n] provider calls, each for a selected campaign, and at
    most one for any campaign. *)
Theorem sweep_accounting (E : Engine) (w : World) :
  let w' := exec (processFollowUpQueue E) w in
  ∃ n : nat,
    eval (processFollowUpQueue E) w = Normal (Z.of_nat n) ∧
    (n ≤ length (selectFollowUps w))%nat ∧
    clock w' = clock w + 10000 * Z.of_nat n ∧
    followUpsSent (stats w') = followUpsSent (stats w) + Z.of_nat n ∧
    length (email_conversations w') = (length (email_conversations w) + n)%nat ∧
    (length (callsSince w w') ≤ n)%nat ∧
    Forall (λ e, ∃ j, e.1 = Some j ∧ j ∈ (selectFollowUps w).*1) (callsSince w w') ∧
    ∀ id, (length (callsFor id (callsSince w w')) ≤ 1)%nat.
Proof.
  intros w'.
  destruct (followUpLoop_accounting E (selectFollowUps w) 0 w (selectFollowUps_NoDup w))
    as (n & calls & w1 & Hrun & Hn & Hclock & Hstats & Hconv & Hout & Hlen & Hall & Hone).
  assert (processFollowUpQueue E w
          = (Normal (Z.of_nat n),
             with_stats (λ s,
               {| emailsSent := emailsSent s; repliesProcessed := repliesProcessed s;
                  bookingsTriggered := bookingsTriggered s;
                  followUpsSent := followUpsSent s + Z.of_nat n |}) w1)) as Hsweep.
  { unfold processFollowUpQueue. eff_steps. by rewrite Hrun. }
  exists n. subst w'. unfold eval, exec. rewrite Hsweep. cbn [fst snd].
  split; [done|]. split; [done|]. split; [done|].
  split; [cbn; by rewrite Hstats|]. split; [done|].
  rewrite (callsSince_app w _ calls) by done. done.
Qed.

(** ** The default sequence ends *)

Lemma followUpLoop_run_unique (E : Engine) (l : list (string * Campaign)) (k : Z) (w : World)
    (n1 n2 : Z) (w1 w2 : World) :
  followUpLoop E l k w = (Normal n1, w1) → followUpLoop E l k w = (Normal n2, w2) → w1 = w2.
Proof. intros H1 H2. rewrite H1 in H2. by injection H2. Qed.

(** A due row of the follow-up query moves one step on in the default
    sequence. *)
Lemma default_step_progress (r : list (option string * Email) → Email → ProviderReply)
    (c : Campaign) (step : Step) (t : Z) :
  needsFollowUp c = true →
  defaultSequence (defaultEngine r) !! getCurrentSequenceStep (status c) = Some step →
  (1 + remaining (patch [Status (step_type step); Last_followup_at t;
                         Followup_count (or0 (followup_count c) + 1); Updated_at t] c)
   ≤ remaining c)%nat.
Proof.
  intros Hneeds Hstep. unfold remaining. rewrite Hneeds.
  unfold needsFollowUp in *. cbn [patch fold_left assign status replied_at bounced_at
    unsubscribed_at].
  rewrite !andb_true_iff, !bool_decide_eq_true in Hneeds.
  destruct Hneeds as (((Hstatus & Hr) & Hb) & Hu).
  rewrite !(bool_decide_eq_true_2 (_ = None)) by done. rewrite !andb_true_r.
  rewrite !elem_of_cons in Hstatus.
  destruct Hstatus as [Hs|[Hs|[Hs|Hs]]]; [| | |by apply elem_of_nil in Hs];
    rewrite Hs in Hstep |- *; injection Hstep as <-; vm_compute; lia.
Qed.

Lemma followUpLoop_progress (r : list (option string * Email) → Email → ProviderReply)
    (l : list (string * Campaign)) (k : Z) (w : World) (id : string) (c : Campaign) :
  NoDup l.*1 →
  outreach_campaigns w !! id = Some c →
  (∀ c0, (id, c0) ∈ l → c0 = c ∧ needsFollowUp c = true) →
  ∃ n' w' calls c',
    followUpLoop (defaultEngine r) l k w = (Normal n', w') ∧
    outbox w' = outbox w ++ calls ∧
    outreach_campaigns w' !! id = Some c' ∧
    (length (callsFor id calls) + remaining c' ≤ remaining c)%nat.
Proof.
  set (E := defaultEngine r).
  revert k w c. induction l as [|[id0 c0] l IH]; intros k w c Hnodup Hrow Hin.
  - exists k, w, [], c. rewrite app_nil_r. cbn. repeat split; done.
  - rewrite fmap_cons in Hnodup. apply NoDup_cons in Hnodup as [Hfresh Hnodup].
    assert (∀ c1, (id, c1) ∈ l → c1 = c ∧ needsFollowUp c = true) as Hin'.
    { intros c1 H1. apply Hin. by right. }
    cbn [followUpLoop]. unfold shouldSendFollowUp. eff_steps. cbn [snd fst].
    destruct (shouldSendFollowUpAt E (clock w) c0) eqn:Hdue; [|by apply IH].
    apply shouldSendFollowUpAt_spec in Hdue as (step & Hstep & _).
    rewrite (sendNextFollowUp_step E id0 c0 step w Hstep). cbv zeta.
    set (content := generateFollowUpEmail E c0 step).
    pose proof (sendEmail_sweep E (recipient_email c0) (content_subject content)
                  (content_body content) (Some id0) w) as (_ & _ & _ & Hcamp).
    pose proof (sendEmail_calls E (recipient_email c0) (content_subject content)
                  (content_body content) (Some id0) w) as Hout.
    set (w1 := exec (sendEmail E (recipient_email c0) (content_subject content)
                       (content_body content) (Some id0)) w) in *.
    set (first := if bool_decide (blocked w (recipient_email c0)) then []
                  else [(Some id0, sendRequest E (recipient_email c0) (content_subject content)
                           (content_body content) (Some id0))]) in *.
    unfold delay. eff_steps.
    destruct (decide (id = id0)) as [->|Hne].
    + destruct (Hin c0 ltac:(left)) as [-> Hneeds].
      match goal with |- context [followUpLoop E l (k + 1) ?w2] =>
        destruct (followUpLoop_accounting E l (k + 1) w2 Hnodup)
          as (n & calls & w' & Hrun & _ & _ & _ & _ & Hout' & _ & Hall & _);
        destruct (followUpLoop_untouched E id0 l (k + 1) w2 Hfresh)
          as (n2 & w2' & Hrun2 & Hsame & _);
        pose proof (followUpLoop_run_unique _ _ _ _ _ _ _ _ Hrun Hrun2) as <-
      end.
      rewrite Hrun.
      cbn [outbox outreach_campaigns with_clock with_conversations with_campaigns]
        in Hout', Hsame.
      rewrite lookup_alter_eq, Hcamp, Hrow in Hsame. cbn [fmap option_fmap option_map] in Hsame.
      eexists _, w', (first ++ calls), _. split; [reflexivity|].
      split; [by rewrite Hout', Hout, app_assoc|]. split; [exact Hsame|].
      rewrite callsFor_app, (callsFor_others id0 l.*1 calls Hall Hfresh), app_nil_r.
      pose proof (default_step_progress r c step (clock w) Hneeds Hstep) as Hprog.
      assert (length (callsFor id0 first) ≤ 1)%nat; [|lia].
      subst first. destruct (bool_decide _); [cbn; lia|]. unfold callsFor.
      rewrite filter_cons_True by done. cbn. lia.
    + match goal with |- context [followUpLoop E l (k + 1) ?w2] =>
        destruct (IH (k + 1) w2 c Hnodup)
          as (n' & w' & calls & c' & Hrun & Hout' & Hrow' & Hle)
      end.
      { cbn [outreach_campaigns with_clock with_conversations with_campaigns].
        by rewrite lookup_alter_ne, Hcamp by done. }
      { exact Hin'. }
      rewrite Hrun.
      cbn [outbox with_clock with_conversations with_campaigns] in Hout'.
      exists n', w', (first ++ calls), c'. split; [reflexivity|].
      split; [by rewrite Hout', Hout, app_assoc|]. split; [exact Hrow'|].
      rewrite callsFor_app.
      assert (callsFor id first = []) as ->; [|exact Hle].
      subst first. destruct (bool_decide _); [done|]. unfold callsFor.
      rewrite filter_cons_False by (cbn; congruence). done.
Qed.

Lemma sweep_progress (r : list (option string * Email) → Email → ProviderReply)
    (w : World) (id : string) (c : Campaign) :
  outreach_campaigns w !! id = Some c →
  let w' := exec (processFollowUpQueue (defaultEngine r)) w in
  ∃ calls c', outbox w' = outbox w ++ calls ∧ outreach_campaigns w' !! id = Some c' ∧
              (length (callsFor id calls) + remaining c' ≤ remaining c)%nat.
Proof.
  intros Hrow w'.
  destruct (followUpLoop_progress r (selectFollowUps w) 0 w id c (selectFollowUps_NoDup w) Hrow)
    as (n' & w1 & calls & c' & Hrun & Hout & Hrow' & Hle).
  { intros c0 Hc0. apply list_elem_of_filter in Hc0 as [Hneeds Hc0].
    apply elem_of_map_to_list in Hc0. cbn [snd] in Hneeds.
    rewrite Hrow in Hc0. injection Hc0 as <-. split; [done|]. by apply Is_true_true. }
  exists calls, c'. subst w'. unfold exec, processFollowUpQueue. eff_steps. rewrite Hrun.
  done.
Qed.

Lemma sweeps_progress (r : list (option string * Email) → Email → ProviderReply)
    (times : list Z) (w : World) (id : string) (c : Campaign) :
  outreach_campaigns w !! id = Some c →
  ∃ calls c', outbox (sweeps (defaultEngine r) times w) = outbox w ++ calls ∧
              outreach_campaigns (sweeps (defaultEngine r) times w) !! id = Some c' ∧
              (length (callsFor id calls) + remaining c' ≤ remaining c)%nat.
Proof.
  revert w c. induction times as [|t times IH]; intros w c Hrow.
  - exists [], c. rewrite app_nil_r. cbn. repeat split; done.
  - change (sweeps (defaultEngine r) (t :: times) w)
      with (sweeps (defaultEngine r) times
              (exec (processFollowUpQueue (defaultEngine r)) (with_clock (λ _, t) w))).
    destruct (sweep_progress r (with_clock (λ _, t) w) id c Hrow)
      as (calls1 & c1 & Hout1 & Hrow1 & Hle1).
    destruct (IH _ c1 Hrow1) as (calls2 & c2 & Hout2 & Hrow2 & Hle2).
    exists (calls1 ++ calls2), c2. split; [by rewrite Hout2, Hout1, app_assoc|].
    split; [exact Hrow2|]. rewrite callsFor_app, length_app. lia.
Qed.

(** X17: with the default sequence, sweeps alone, however many and at
    whatever times, make at most three provider calls for a campaign, and
    no more than the steps its status leaves: three from [sent], two from
    [follow_up_1], one from [follow_up_2], none for a row the follow-up
    query does not select. *)
Theorem sweeps_send_at_most_three_follow_ups
    (r : list (option string * Email) → Email → ProviderReply)
    (times : list Z) (w : World) (id : string) (c : Campaign) :
  outreach_campaigns w !! id = Some c →
  (length (callsFor id (callsSince w (sweeps (defaultEngine r) times w))) ≤ remaining c)%nat ∧
  (remaining c ≤ 3)%nat.
Proof.
  intros Hrow. destruct (sweeps_progress r times w id c Hrow) as (calls & c' & Hout & _ & Hle).
  rewrite (callsSince_app _ _ _ Hout). split; [lia|].
  unfold remaining. destruct (needsFollowUp c); lia.
Qed.

Lemma sweeps_send_at_most_three_follow_ups_witness :
  let times := [80 * hour; 200 * hour; 400 * hour; 800 * hour; 1600 * hour] in
  (length (callsFor "c1"
     (callsSince oneLead (sweeps (defaultEngine alwaysAccepts) times oneLead)))
   ≤ remaining (sentCampaign 0))%nat ∧
  (remaining (sentCampaign 0) ≤ 3)%nat.
Proof.
  apply (sweeps_send_at_most_three_follow_ups alwaysAccepts
           [80 * hour; 200 * hour; 400 * hour; 800 * hour; 1600 * hour] oneLead "c1"
           (sentCampaign 0)).
  vm_compute. reflexivity.
Defined.

(** ** Finding the campaign of an address *)

Lemma latest_max (l : list (string * Campaign)) (best : option (string * Campaign))
    (y : string * Campaign) :
  fold_left latest l best = Some y →
  (∀ x, x ∈ l → created_at x.2 ≤ created_at y.2) ∧
  (∀ b, best = Some b → created_at b.2 ≤ created_at y.2).
Proof.
  revert best. induction l as [|row l IH]; intros best Hfold.
  - cbn in Hfold. subst best. split; [by intros x ?%elem_of_nil|]. intros b [= ->]. lia.
  - cbn [fold_left] in Hfold. destruct (IH _ Hfold) as [Hl Hbest].
    assert (created_at row.2 ≤ created_at y.2 ∧
            ∀ b, best = Some b → created_at b.2 ≤ created_at y.2) as [Hrow Hb].
    { unfold latest in Hbest. destruct best as [b0|].
      - destruct (created_at b0.2 <? created_at row.2) eqn:Hlt.
        + apply Z.ltb_lt in Hlt. pose proof (Hbest row eq_refl).
          split; [done|]. intros b [= <-]. lia.
        + apply Z.ltb_ge in Hlt. pose proof (Hbest b0 eq_refl).
          split; [lia|]. by intros b [= <-].
      - split; [by apply Hbest|done]. }
    split; [|exact Hb]. intros x [->|Hx]%elem_of_cons; [exact Hrow|by apply Hl].
Qed.

Lemma latest_none (l : list (string * Campaign)) (best : option (string * Campaign)) :
  fold_left latest l best = None → l = [] ∧ best = None.
Proof.
  revert best. induction l as [|row l IH]; intros best Hfold; [done|].
  cbn [fold_left] in Hfold. destruct (IH _ Hfold) as [_ Hbest].
  unfold latest in Hbest. destruct best as [b|]; [|done].
  by destruct (created_at b.2 <? created_at row.2).
Qed.

(** X18: [findCampaignByEmail] never throws.  What it finds is a row of the
    table whose recipient is exactly the trimmed, lower-cased address, and
    no row with that recipient was created later; it finds nothing only
    when no row has that recipient. *)
Theorem found_campaign_is_the_latest (email : string) (w : World) :
  let wanted := Js.trim (Js.toLowerCase email) in
  match eval (findCampaignByEmail email) w with
  | Normal (Some (id, c)) =>
      outreach_campaigns w !! id = Some c ∧ recipient_email c = wanted ∧
      ∀ id' c', outreach_campaigns w !! id' = Some c' → recipient_email c' = wanted →
                created_at c' ≤ created_at c
  | Normal None =>
      ∀ id' c', outreach_campaigns w !! id' = Some c' → recipient_email c' ≠ wanted
  | Throw _ => False
  end.
Proof.
  intros wanted. unfold eval, findCampaignByEmail. eff_steps. cbn [fst]. fold wanted.
  destruct (fold_left latest _ None) as [[id c]|] eqn:Hfold.
  - destruct (latest_elem _ None _ Hfold) as [Hin|[=]].
    apply list_elem_of_filter in Hin as [Hwanted Hin]. apply elem_of_map_to_list in Hin.
    split; [exact Hin|]. split; [exact Hwanted|].
    intros id' c' Hrow' Hwanted'.
    apply (proj1 (latest_max _ None _ Hfold) (id', c')).
    apply list_elem_of_filter. split; [exact Hwanted'|]. by apply elem_of_map_to_list.
  - intros id' c' Hrow' Hwanted'. apply latest_none in Hfold as [Hnil _].
    assert ((id', c') ∈ filter (λ row : string * Campaign, recipient_email row.2 = wanted)
                          (map_to_list (outreach_campaigns w))) as Hin.
    { apply list_elem_of_filter. split; [exact Hwanted'|]. by apply elem_of_map_to_list. }
    rewrite Hnil in Hin. by apply elem_of_nil in Hin.
Qed.

(** ** Sender addresses *)

Lemma all_app (p : ascii → bool) (a b : string) : all p (a +:+ b) = all p a && all p b.
Proof.
  induction a as [|c a IH]; [done|]. rewrite app_cons. cbn [all]. by rewrite IH, andb_assoc.
Qed.

(** A starred character class takes all it can first. *)
Lemma star_class_greedy (p : ascii → bool) (t rest : string) (n : nat) :
  all p t = true → all p (Js.take 1 rest) = false ∨ rest = "" →
  (String.length (t +:+ rest) < n)%nat →
  ∃ l, star_loop (run (Chr p)) n (t +:+ rest) = rest :: l.
Proof.
  revert n. induction t as [|c t IH]; intros n Hall Hrest Hn; (destruct n as [|n]; [lia|]).
  - change ("" +:+ rest) with rest. rewrite star_loop_S.
    assert (run (Chr p) rest = []) as ->.
    { destruct rest as [|c r]; [done|]. rewrite run_chr.
      destruct Hrest as [Hc|[=]]. cbn in Hc. rewrite andb_true_r in Hc. by rewrite Hc. }
    by exists [].
  - cbn [all] in Hall. apply andb_true_iff in Hall as [Hc Hall].
    rewrite app_cons in Hn |- *. rewrite star_loop_S, run_chr, Hc. cbn [flat_map].
    rewrite app_nil_r. rewrite (proj2 (Nat.ltb_lt _ _)) by (cbn; lia).
    destruct (IH n Hall Hrest) as [l ->]; [cbn in Hn; lia|]. by eexists.
Qed.

Lemma first_match_skip (r : regex) (c : ascii) (s : string) :
  run r (String c s) = [] → first_match r (String c s) = first_match r s.
Proof. intros Hrun. cbn [first_match]. by rewrite Hrun. Qed.

Lemma run_chr_eq (a c : ascii) (s : string) :
  run (chr a) (String c s) = if bool_decide (c = a) then [s] else [].
Proof. reflexivity. Qed.

Lemma run_angle_other (c : ascii) (s : string) :
  isNot "<" c = true → run anglePattern (String c s) = [].
Proof.
  intros Hc. unfold anglePattern. cbn [seq]. rewrite run_seq, run_chr_eq.
  unfold isNot in Hc. apply negb_true_iff in Hc. by rewrite Hc.
Qed.

Lemma run_angle_empty : run anglePattern "" = [].
Proof. reflexivity. Qed.

Lemma first_match_angle_none (s : string) :
  all (isNot "<") s = true → first_match anglePattern s = None.
Proof.
  induction s as [|c s IH]; [done|]. cbn [all]. intros [Hc Hall]%andb_true_iff.
  rewrite first_match_skip by (by apply run_angle_other). by apply IH.
Qed.

Lemma first_match_angle (name addr rest : string) (a : ascii) :
  all (isNot "<") name = true → all notClosing (String a addr) = true →
  first_match anglePattern (name +:+ "<" +:+ String a addr +:+ ">" +:+ rest)
  = Some ("<" +:+ String a addr +:+ ">").
Proof.
  intros Hname Haddr. induction name as [|c name IH].
  - change ("" +:+ "<" +:+ String a addr +:+ ">" +:+ rest)
      with (String "<" (String a (addr +:+ String ">" rest))).
    cbn [all] in Haddr. apply andb_true_iff in Haddr as [Ha Haddr].
    assert (∃ l, run anglePattern (String "<" (String a (addr +:+ String ">" rest)))
                 = rest :: l) as [l Hrun].
    { unfold anglePattern. cbn [seq]. rewrite run_seq, run_chr_eq.
      rewrite bool_decide_eq_true_2 by done. cbn [flat_map]. rewrite app_nil_r.
      rewrite run_seq. unfold plus. rewrite run_seq, run_chr, Ha. cbn [flat_map].
      rewrite app_nil_r, run_star.
      destruct (star_class_greedy notClosing addr (String ">" rest)
                  (S (String.length (addr +:+ String ">" rest))) Haddr) as [l ->];
        [by left | lia |].
      cbn [flat_map]. rewrite run_chr_eq, bool_decide_eq_true_2 by done.
      by eexists. }
    cbn [first_match]. rewrite Hrun. f_equal.
    assert (String "<" (String a (addr +:+ String ">" rest))
            = ("<" +:+ String a addr +:+ ">") +:+ rest) as ->.
    { rewrite !app_cons. change ("" +:+ String a (addr +:+ ">")) with (String a (addr +:+ ">")).
      rewrite !app_cons, app_assoc_s. reflexivity. }
    apply take_app_length.
  - cbn [all] in Hname. apply andb_true_iff in Hname as [Hc Hname].
    rewrite app_cons, first_match_skip by (by apply run_angle_other). by apply IH.
Qed.

Lemma group1_angle (addr : string) : group1 ("<" +:+ addr +:+ ">") = addr.
Proof.
  unfold group1. change ("<" +:+ addr +:+ ">") with (String "<" (addr +:+ ">")).
  cbn [Js.drop String.length].
  replace (S (String.length (addr +:+ ">")) - 2)%nat
    with (String.length (addr +:+ ">") - String.length ">")%nat
    by (rewrite length_app_s; change (String.length ">") with 1%nat; lia).
  apply take_app_length.
Qed.

Lemma lower_idempotent (c : ascii) : Js.lower (Js.lower c) = Js.lower c.
Proof. by destruct c as [[] [] [] [] [] [] [] []]. Qed.

Lemma toLowerCase_idempotent (s : string) :
  Js.toLowerCase (Js.toLowerCase s) = Js.toLowerCase s.
Proof.
  induction s as [|c s IH]; [done|]. cbn [Js.toLowerCase]. by rewrite lower_idempotent, IH.
Qed.

(** X19: from a sender of the form [name <address> rest], where the name
    holds no [<] and the address is not empty and holds no [>],
    [extractEmail] takes the address between the brackets, lower-cased. *)
Theorem extractEmail_takes_the_bracketed_address (name addr rest : string) (a : ascii) :
  all (isNot "<") name = true → all notClosing (String a addr) = true →
  extractEmail (name +:+ "<" +:+ String a addr +:+ ">" +:+ rest)
  = Js.toLowerCase (String a addr).
Proof.
  intros Hname Haddr. unfold extractEmail.
  rewrite (first_match_angle name addr rest a Hname Haddr). by rewrite group1_angle.
Qed.

Lemma extractEmail_takes_the_bracketed_address_witness :
  extractEmail ("Ann Lee " +:+ "<" +:+ "Lead@Example.com" +:+ ">" +:+ " (via web)")
  = Js.toLowerCase "Lead@Example.com".
Proof.
  apply (extractEmail_takes_the_bracketed_address "Ann Lee " "ead@Example.com" " (via web)" "L");
    reflexivity.
Defined.

(** X20: what [extractEmail] returns is always in lower case, and a sender
    without [<] is returned whole, lower-cased. *)
Theorem extractEmail_is_lower_case (fromString : string) :
  Js.toLowerCase (extractEmail fromString) = extractEmail fromString ∧
  (all (isNot "<") fromString = true → extractEmail fromString = Js.toLowerCase fromString).
Proof.
  split.
  - unfold extractEmail. destruct (first_match anglePattern fromString);
      apply toLowerCase_idempotent.
  - intros Hplain. unfold extractEmail. by rewrite first_match_angle_none.
Qed.

Lemma extractEmail_is_lower_case_witness :
  extractEmail "Lead@Example.com" = Js.toLowerCase "Lead@Example.com".
Proof. apply (extractEmail_is_lower_case "Lead@Example.com"). reflexivity. Defined.

(** ** HTML replies *)

Lemma replace_no_match (r : regex) (f : string → string) (s : string) :
  (∀ k, run r (Js.drop k s) = []) → replace r f s = s.
Proof.
  unfold replace. induction s as [|c s IH]; intros Hnone;
    pose proof (Hnone 0%nat) as H0; rewrite drop_0 in H0.
  - cbn [segments]. by rewrite H0.
  - cbn [segments]. rewrite H0. cbn [map Js.concat].
    rewrite IH; [done|]. intros k. apply (Hnone (S k)).
Qed.

Lemma all_drop (p : ascii → bool) (k : nat) (s : string) :
  all p s = true → all p (Js.drop k s) = true.
Proof.
  revert s. induction k as [|k IH]; intros [|c s] Hall; try done.
  cbn [all] in Hall. apply andb_true_iff in Hall as [_ Hall]. by apply IH.
Qed.

Lemma run_chr_i_eq (a c : ascii) (s : string) :
  run (chr_i a) (String c s) = if bool_decide (Js.lower c = Js.lower a) then [s] else [].
Proof. reflexivity. Qed.

Lemma lower_lt (c : ascii) : Js.lower c = Js.lower "<" → c = "<"%char.
Proof. destruct c as [[] [] [] [] [] [] [] []]; intros H; try reflexivity; discriminate H. Qed.

(** No pattern of [htmlToText] matches at the start of plain text. *)
Lemma htmlRules_plain :
  Forall (λ rule : regex * string, ∀ t, all plainChar t = true → run rule.1 t = []) htmlRules.
Proof.
  unfold htmlRules.
  repeat constructor; intros [|c t] Hall; try reflexivity;
    cbn [all] in Hall; apply andb_true_iff in Hall as [Hc _];
    unfold plainChar, isNot in Hc;
    rewrite andb_true_iff, !negb_true_iff, !bool_decide_eq_false in Hc;
    destruct Hc as [Hlt Hamp]; cbn [fst seq lit lit_i]; rewrite !run_seq.
  - rewrite run_chr_i_eq, bool_decide_eq_false_2; [done|]. intros H. by apply Hlt, lower_lt.
  - rewrite run_chr_i_eq, bool_decide_eq_false_2; [done|]. intros H. by apply Hlt, lower_lt.
  - by rewrite run_chr_eq, bool_decide_eq_false_2.
  - by rewrite run_chr_eq, bool_decide_eq_false_2.
  - by rewrite run_chr_eq, bool_decide_eq_false_2.
  - by rewrite run_chr_eq, bool_decide_eq_false_2.
  - by rewrite run_chr_eq, bool_decide_eq_false_2.
Qed.

Lemma rules_plain (rules : list (regex * string)) (s : string) :
  Forall (λ rule : regex * string, ∀ t, all plainChar t = true → run rule.1 t = []) rules →
  all plainChar s = true →
  fold_left (λ text rule, replace rule.1 (λ _, rule.2) text) rules s = s.
Proof.
  intros Hrules Hplain. induction Hrules as [|rule rules Hrule _ IH]; [done|].
  cbn [fold_left]. rewrite replace_no_match; [exact IH|].
  intros k. apply Hrule. by apply all_drop.
Qed.

(** X21: [htmlToText] gives the empty string for a missing or empty body,
    and text that holds neither [<] nor [&] is only trimmed. *)
Theorem htmlToText_of_plain_text (s : string) :
  htmlToText None = "" ∧ htmlToText (Some "") = "" ∧
  (all plainChar s = true → htmlToText (Some s) = Js.trim s).
Proof.
  split; [reflexivity|]. split; [reflexivity|].
  intros Hplain. unfold htmlToText. destruct s as [|c s]; [reflexivity|].
  cbn [Js.truthy default from_option Datatypes.id].
  by rewrite (rules_plain htmlRules _ htmlRules_plain Hplain).
Qed.

Lemma htmlToText_of_plain_text_witness :
  htmlToText (Some "  Sounds good, call me.  ") = Js.trim "  Sounds good, call me.  ".
Proof.
  apply (htmlToText_of_plain_text "  Sounds good, call me.  "). reflexivity.
Defined.

(** ** The message given to the provider *)

Lemma replace_chr_all (a : ascii) (x s : string) :
  all (isNot a) x = true → all (isNot a) (replace (chr a) (λ _, x) s) = true.
Proof.
  intros Hx. unfold replace. induction s as [|c s IH]; [reflexivity|].
  cbn [segments]. rewrite run_chr_eq. case_bool_decide as Hc.
  - replace (String.length (String c s) - String.length s)%nat with 1%nat by (cbn; lia).
    cbn [map Js.concat]. rewrite all_app, Hx. exact IH.
  - cbn [map Js.concat]. rewrite app_cons. cbn [all].
    unfold isNot at 1. rewrite bool_decide_eq_false_2 by done. exact IH.
Qed.

(** X22: the HTML part of every message given to the provider holds no
    line feed; the text part is the body as it was given, without
    tracking; and for a send without a campaign id the HTML part is the
    body with each line feed replaced, with no pixel and no rewritten
    link. *)
Theorem html_part_has_no_line_feed (E : Engine) (to subject body : string)
    (cid : option string) :
  let mail := sendRequest E to subject body cid in
  all (isNot "010") (mail_html mail) = true ∧
  mail_text mail = body ∧
  (¬ Js.truthy cid → mail_html mail = replace (chr "010") (λ _, "<br>") body).
Proof.
  cbv zeta. split; [|split].
  - unfold sendRequest. cbn [mail_html]. by apply replace_chr_all.
  - reflexivity.
  - intros Hnone. unfold sendRequest, addTracking. cbn [mail_html].
    by destruct cid as [[|c i]|].
Qed.

Lemma html_part_has_no_line_feed_witness :
  let body := "Hello," +:+ nl +:+ "see https://example.com" in
  mail_html (sendRequest (defaultEngine alwaysAccepts) "lead@example.com" "Hi" body None)
  = replace (chr "010") (λ _, "<br>") body.
Proof.
  apply (html_part_has_no_line_feed (defaultEngine alwaysAccepts) "lead@example.com" "Hi"
           ("Hello," +:+ nl +:+ "see https://example.com") None).
  cbn. tauto.
Defined.

(** ** The outcome of a reply *)

Lemma sendEmail_replies (E : Engine) (to subject body : string) (cid : option string)
    (w : World) :
  ∃ result w1, sendEmail E to subject body cid w = (Normal result, w1) ∧
    repliesProcessed (stats w1) = repliesProcessed (stats w).
Proof.
  rewrite sendEmail_run. destruct (bool_decide _); [by eexists _, _|].
  cbv zeta. destruct (resend E (outbox w) _); by eexists _, _.
Qed.

(** With a classification, [handleClassifiedReply] returns for every
    action, and counts no reply. *)
Lemma handleClassifiedReply_returns (E : Engine) (campaign : string * Campaign)
    (r : ClassificationResult) (w : World) :
  is_Some (classification r) →
  ∃ w', handleClassifiedReply E campaign r w = (Normal tt, w') ∧
        repliesProcessed (stats w') = repliesProcessed (stats w).
Proof.
  intros [cls Hcls]. unfold handleClassifiedReply. rewrite Hcls. cbv zeta.
  repeat case_decide.
  - destruct (Js.truthy (response r)); [|by eexists].
    unfold sendFollowUpEmail. cbv zeta. unfold mbind at 1, Eff_bind at 1.
    match goal with |- context [sendEmail E ?a ?b ?c ?d w] =>
      destruct (sendEmail_replies E a b c d w) as (res & w1 & -> & Hst) end.
    unfold storeOutgoingEmail. eff_steps. by eexists.
  - unfold sendBookingEmail. cbv zeta. unfold mbind at 1 2, Eff_bind at 1 2.
    match goal with |- context [sendEmail E ?a ?b ?c ?d w] =>
      destruct (sendEmail_replies E a b c d w) as (res & w1 & -> & Hst) end.
    unfold updateCampaign. eff_steps. by eexists.
  - by eexists.
  - unfold addToUnsubscribeList. eff_steps. by eexists.
  - unfold scheduleRetry, updateCampaign. eff_steps. by eexists.
  - unfold flagForReview, updateCampaign. eff_steps. by eexists.
  - by eexists.
Qed.

(** X23: when the classifier answers, the reply is counted once, whatever
    the action and whatever becomes of the email it may send.  With a
    classification in the answer [processIncomingReply] returns the
    campaign id, the classification and the action; without one it throws,
    after the row was marked as replied and the reply counted. *)
Theorem classified_reply_is_counted_once (E : Engine)
    (handleReply : string → string → ReplyMeta → Ing ClassificationResult)
    (inboundEmail : InboundEmail) (s s2 : Store) (id : string) (c : Campaign)
    (r : ClassificationResult) :
  let sender := extractEmail (inbound_from inboundEmail) in
  campaignFor sender s = Some (id, c) →
  handleReply id (replyText inboundEmail)
    {| meta_from := sender; meta_subject := inbound_subject inboundEmail;
       receivedAt := clock (world s) |}
    (execIng (updateCampaignWide id
                [Replied_at (clock (world s)); Narrow (Status "replied");
                 Last_reply_text (replyText inboundEmail)]) s)
  = (Normal r, s2) →
  ∃ out s', processIncomingReply E handleReply inboundEmail s = (out, s') ∧
    repliesProcessed (stats (world s')) = repliesProcessed (stats (world s2)) + 1 ∧
    campaign_details s' = campaign_details s2 ∧
    (is_Some (classification r) →
     out = Normal (ReplyProcessed id (classification r) (action r))) ∧
    (classification r = None → ∃ e, out = Throw e).
Proof.
  intros sender Hfound Hreply. pose proof (campaignFor_row _ _ _ _ Hfound) as Hrow.
  destruct s as [w d]. cbn [world] in *.
  unfold processIncomingReply. cbv zeta.
  unfold mbind at 1, Ing_bind at 1. fold sender. rewrite campaignFor_run, Hfound.
  unfold mbind at 1 2 3 4, Ing_bind at 1 2 3 4. unfold lift at 1 2. unfold now, gets.
  cbv beta iota zeta. cbn [fst snd world campaign_details].
  unfold updateCampaignWide at 1. cbn [world campaign_details]. rewrite Hrow.
  fold (replyText inboundEmail). cbn [clock with_campaigns].
  unfold execIng, updateCampaignWide in Hreply.
  cbn [snd world campaign_details] in Hreply. rewrite Hrow in Hreply.
  rewrite Hreply. destruct s2 as [w2 d2].
  unfold mbind, Ing_bind, lift, modify, mret, Ing_ret. cbv beta iota zeta.
  cbn [fst snd world campaign_details].
  destruct (classification r) as [cls|] eqn:Hcls.
  - destruct (handleClassifiedReply_returns E (id, c) r (with_stats countReplyProcessed w2))
      as (w' & Hrun & Hst); [by rewrite Hcls|].
    rewrite Hrun. cbn [fst snd]. eexists _, _. split; [reflexivity|].
    cbn [world campaign_details]. split; [by rewrite Hst|]. split; [done|].
    split; done.
  - destruct (handleClassifiedReply_without_classification E (id, c) r
                (with_stats countReplyProcessed w2) Hcls) as [e Hrun].
    rewrite Hrun. cbn [fst snd]. eexists _, _. split; [reflexivity|].
    cbn [world campaign_details]. split; [done|]. split; [done|].
    split; [by intros [? [=]]|]. by eexists.
Qed.

Lemma classified_reply_is_counted_once_witness :
  let inbound := replyFrom "Ann Lee <Lead@Example.com>" (Some "Sounds good") in
  ∃ out s', processIncomingReply (defaultEngine alwaysRejects) (answers interested) inbound
              (storeOf oneLead) = (out, s') ∧
    repliesProcessed (stats (world s')) = repliesProcessed (stats oneLead) + 1 ∧
    campaign_details s'
      = campaign_details (execIng (updateCampaignWide "c1"
          [Replied_at (clock oneLead); Narrow (Status "replied");
           Last_reply_text (replyText inbound)]) (storeOf oneLead)) ∧
    (is_Some (classification interested) →
     out = Normal (ReplyProcessed "c1" (classification interested) (action interested))) ∧
    (classification interested = None → ∃ e, out = Throw e).
Proof.
  apply (classified_reply_is_counted_once (defaultEngine alwaysRejects) (answers interested)
           (replyFrom "Ann Lee <Lead@Example.com>" (Some "Sounds good"))
           (storeOf oneLead)
           (execIng (updateCampaignWide "c1"
              [Replied_at (clock oneLead); Narrow (Status "replied");
               Last_reply_text (replyText
                 (replyFrom "Ann Lee <Lead@Example.com>" (Some "Sounds good")))])
              (storeOf oneLead))
           "c1" (sentCampaign 0) interested).
  - vm_compute. reflexivity.
  - reflexivity.
Defined.

(** ** Engagement rows *)

(** X24: a provider open event is logged as an engagement row only when it
    is the first open of the campaign, while the tracking pixel logs a row
    at every request for an existing campaign. *)
Theorem repeat_opens_are_logged_by_the_pixel_only (data : EventData) (id : string)
    (c : Campaign) (w : World) :
  eval (findCampaignByEmail (to data)) w = Normal (Some (id, c)) →
  email_engagement (exec (handleEmailOpened data) w)
  = email_engagement w ++
    match opened_at c with
    | None => [{| eng_campaign_id := id; event_type := "open";
                  metadata := [("email_id", Some (email_id data))];
                  eng_created_at := clock w |}]
    | Some _ => []
    end ∧
  email_engagement (exec (trackOpen id) w)
  = email_engagement w ++
    [{| eng_campaign_id := id; event_type := "open"; metadata := [("source", Some "pixel")];
        eng_created_at := clock w |}].
Proof.
  intros Hfind. pose proof (findCampaignByEmail_row _ _ _ _ Hfind) as Hrow. split.
  - unfold exec, handleEmailOpened. unfold mbind at 1, Eff_bind at 1.
    rewrite findCampaignByEmail_run, Hfind.
    unfold updateCampaign, logEngagement. eff_steps.
    destruct (opened_at c); cbn; by rewrite ?app_nil_r.
  - unfold exec, trackOpen, updateCampaign, logEngagement. eff_steps. by rewrite Hrow.
Qed.

Lemma repeat_opens_are_logged_by_the_pixel_only_witness :
  let data := {| email_id := "e1"; to := "lead@example.com"; link := None |} in
  let w := exec (trackOpen "c1") oneLead in
  email_engagement (exec (handleEmailOpened data) w) = email_engagement w ++ [] ∧
  email_engagement (exec (trackOpen "c1") w)
  = email_engagement w ++
    [{| eng_campaign_id := "c1"; event_type := "open"; metadata := [("source", Some "pixel")];
        eng_created_at := clock w |}].
Proof.
  apply (repeat_opens_are_logged_by_the_pixel_only
           {| email_id := "e1"; to := "lead@example.com"; link := None |} "c1"
           (patch [Open_count 1; Opened_at (clock oneLead); Updated_at (clock oneLead)]
                  (sentCampaign 0))
           (exec (trackOpen "c1") oneLead)).
  vm_compute. reflexivity.
Defined.

(** ** Templates *)



(** ** The block list *)



(** ** The due check in time *)

(** X27: a campaign that is due for its follow-up stays due as time
    passes, as long as its row is not written: the due check at a later
    time answers yes whenever it did at an earlier one. *)
Theorem due_follow_up_stays_due (E : Engine) (t t' : Z) (c : Campaign) :
  t ≤ t' → shouldSendFollowUpAt E t c = true → shouldSendFollowUpAt E t' c = true.
Proof.
  intros Hle. rewrite !shouldSendFollowUpAt_spec. intros (step & Hstep & Hdue).
  exists step. split; [exact Hstep|]. lia.
Qed.

Lemma due_follow_up_stays_due_witness :
  shouldSendFollowUpAt (defaultEngine alwaysAccepts) (100 * hour) (sentCampaign 0) = true.
Proof.
  apply (due_follow_up_stays_due (defaultEngine alwaysAccepts) (72 * hour) (100 * hour)
           (sentCampaign 0)).
  - vm_compute. discriminate.
  - vm_compute. reflexivity.
Defined.
